(** * Image service of the Srinagar gems backend

    A shallow embedding of [src/services/imageService.js]: the
    [ImageService] class with its Backblaze B2 session, the validator,
    the upload and deletion orchestrators, the proxy reader and the
    health monitor, followed by the properties proved about them.

    Conventions of the embedding.
    - A JavaScript [Error] is represented by its [message]; a call that
      may throw returns an [outcome].
    - The service object and the outside world are threaded explicitly
      through a state-and-exception monad [js].
    - Everything the service does not implement itself (the B2 client
      library, sharp, mime-types, Math.random, the clock) is collected
      in the record [Externals]; every theorem quantifies over it.  A
      remote answer may depend on the whole history of requests.
    - An asynchronous task is run to completion at the point where the
      source starts it, so promises settle in program order.
    - [console.log] and [console.error] have no effect on the model. *)

From Stdlib Require Import ZArith Ascii String List DecimalString.
From stdpp Require Import base option list strings gmap.

Local Open Scope Z_scope.
Local Open Scope string_scope.

(** ** Values *)

(** A Node [Buffer]: a sequence of bytes. *)
Definition Buffer := list Byte.byte.

(** The settled state of a call: a returned value or a thrown [Error],
    kept as its [message]. *)
Inductive outcome (A : Type) : Type :=
| Return (a : A)
| Throw (message : string).
Arguments Return {A} a.
Arguments Throw {A} message.

(** One entry of [this.imageSizes]. *)
Record SizeConfig := {
  width : option Z;
  height : option Z;
  quality : Z
}.

(** The encoder chosen by the switch of [processImage]. *)
Inductive Encoder :=
| jpeg (progressive : bool)
| png (progressive : bool)
| webp.

(** A sharp pipeline as [processImage] builds it. *)
Record SharpPipeline := {
  sharp_input : Buffer;
  sharp_resize : option (Z * Z);
  sharp_encoder : Encoder;
  sharp_quality : Z
}.

(** The instance of the B2 client library held in [this.b2]. *)
Record B2Client := {
  applicationKeyId : option string;
  applicationKey : option string;
  accountId : option string
}.

(** The requests the service sends to the object store. *)
Inductive B2Call :=
| authorize (keyId key : option string)
| getUploadUrl (bucket : option string)
| uploadFile (uploadUrl uploadAuthToken fileName : string) (data : Buffer)
    (mime : string) (src_last_modified_millis : string)
| downloadFileByName (bucket : option string) (fileName : string)
| listFileNames (bucket : option string) (startFileName : string)
    (maxFileCount : Z)
| deleteFileVersion (fileId fileName : string)
| listBuckets.

Record UploadUrlData := {
  data_uploadUrl : string;
  data_authorizationToken : string
}.

Record FileEntry := {
  f_fileId : string;
  f_fileName : string
}.

Record DownloadResponse := {
  response_data : Buffer;
  response_headers : gmap string string
}.

(** What the code obtains from outside [imageService.js].  The list
    given to a B2 operation is the history of requests, the current one
    last. *)
Record Externals := {
  random_nibble : nat -> Z;
  mime_extension : string -> option string;
  sharp_toBuffer : SharpPipeline -> outcome Buffer;
  Date_now : list B2Call -> Z;
  Date_toISOString : list B2Call -> string;
  b2_authorize : list B2Call -> outcome string;
  b2_getUploadUrl : list B2Call -> outcome UploadUrlData;
  b2_uploadFile : list B2Call -> outcome unit;
  b2_downloadFileByName : list B2Call -> outcome DownloadResponse;
  b2_listFileNames : list B2Call -> outcome (list FileEntry);
  b2_deleteFileVersion : list B2Call -> outcome unit;
  b2_listBuckets : list B2Call -> outcome unit
}.

(** The fields of the singleton [ImageService] that change, together
    with [process.env], the requests sent so far and the number of
    [Math.random] draws made. *)
Record World := {
  env : gmap string string;
  b2 : option B2Client;
  bucketId : option string;
  bucketName : option string;
  isInitialized : bool;
  calls : list B2Call;
  draws : nat
}.

(** ** The monad of service code *)

Definition js (A : Type) : Type := World -> outcome A * World.

Definition ret {A} (a : A) : js A := fun w => (Return a, w).

Definition throw {A} (message : string) : js A := fun w => (Throw message, w).

Definition bind {A B} (m : js A) (k : A -> js B) : js B :=
  fun w =>
    match m w with
    | (Return a, w') => k a w'
    | (Throw e, w') => (Throw e, w')
    end.

(** [try { body } catch (error) { handler(error.message) }] *)
Definition try_catch {A} (body : js A) (handler : string -> js A) : js A :=
  fun w =>
    match body w with
    | (Return a, w') => (Return a, w')
    | (Throw e, w') => handler e w'
    end.

(** Starting an asynchronous task and keeping its promise. *)
Definition settle {A} (task : js A) : js (outcome A) :=
  fun w => let (r, w') := task w in (Return r, w').

Definition get : js World := fun w => (Return w, w).

Definition lift {A} (r : outcome A) : js A := fun w => (r, w).

Declare Scope js_scope.
Delimit Scope js_scope with js.
Notation "'let!' x ':=' m 'in' k" := (bind m (fun x => k))
  (at level 10, x pattern, m at level 100, k at level 200) : js_scope.
Notation "m ';;;' k" := (bind m (fun _ => k))
  (at level 100, k at level 200, right associativity) : js_scope.
Local Open Scope js_scope.

(** ** Helpers for JavaScript primitives *)

(** Truthiness of a possibly missing string ([undefined] and [''] are
    falsy). *)
Definition truthy_string (s : option string) : bool :=
  match s with
  | Some EmptyString => false
  | Some _ => true
  | None => false
  end.

(** Truthiness of a possibly missing number. *)
Definition truthy_number (n : option Z) : bool :=
  match n with
  | Some 0 => false
  | Some _ => true
  | None => false
  end.

(** [a || b] on strings. *)
Definition or_default (a : option string) (b : string) : string :=
  match a with
  | Some EmptyString => b
  | Some s => s
  | None => b
  end.

(** An integer-valued number inside a template literal. *)
Definition Number_toString (n : Z) : string :=
  NilZero.string_of_int (Z.to_int n).

(** A field inside a template literal; [absent] is the text that
    JavaScript prints for the missing value. *)
Definition show (absent : string) (s : option string) : string :=
  match s with
  | Some v => v
  | None => absent
  end.

(** [array.join(sep)] *)
Fixpoint join (sep : string) (l : list string) : string :=
  match l with
  | [] => ""
  | [s] => s
  | s :: rest => s +:+ sep +:+ join sep rest
  end.

(** [array.includes(x)] *)
Definition includes (l : list string) (x : string) : bool :=
  existsb (String.eqb x) l.

(** [array.find(pred)] *)
Fixpoint find {A} (pred : A -> bool) (l : list A) : option A :=
  match l with
  | [] => None
  | x :: rest => if pred x then Some x else find pred rest
  end.

(** ** The service *)

Section ImageService.

Context (ext : Externals).

(** *** Constructor constants *)

Definition imageSizes : list (string * SizeConfig) :=
  [ ("thumbnail", {| width := Some 150; height := Some 150; quality := 80 |});
    ("medium", {| width := Some 400; height := Some 300; quality := 85 |});
    ("large", {| width := Some 800; height := Some 600; quality := 90 |});
    ("original", {| width := None; height := None; quality := 95 |}) ].

Definition supportedFormats : list string :=
  [ "image/jpeg"; "image/png"; "image/webp" ].

Definition maxFileSize : Z := 10 * 1024 * 1024.

(** The service as the constructor leaves it. *)
Definition constructed (e : gmap string string) : World :=
  {| env := e; b2 := None; bucketId := None; bucketName := None;
     isInitialized := false; calls := []; draws := 0 |}.

(** *** generateUUID *)

Definition hexDigit (v : Z) : ascii :=
  nth (Z.to_nat v) (list_ascii_of_string "0123456789abcdef") "0"%char.

(** [Math.random() * 16 | 0]: the [n]-th draw, an integer from 0 to 15. *)
Definition random16 (n : nat) : Z := random_nibble ext n mod 16.

(** The callback of [replace(/[xy]/g, ...)]. *)
Definition replace_xy (c : ascii) (n : nat) : ascii :=
  let r := random16 n in
  let v := if Ascii.eqb c "x" then r else Z.lor (Z.land r 3) 8 in
  hexDigit v.

Fixpoint replace_all (template : string) (n : nat) : string * nat :=
  match template with
  | EmptyString => (EmptyString, n)
  | String c rest =>
      if Ascii.eqb c "x" || Ascii.eqb c "y" then
        let (s, n') := replace_all rest (S n) in (String (replace_xy c n) s, n')
      else
        let (s, n') := replace_all rest n in (String c s, n')
  end.

Definition generateUUID : js string :=
  fun w =>
    let (s, n) := replace_all "xxxxxxxx-xxxx-4xxx-yxxx-xxxxxxxxxxxx" (draws w) in
    (Return s,
     {| env := env w; b2 := b2 w; bucketId := bucketId w;
        bucketName := bucketName w; isInitialized := isInitialized w;
        calls := calls w; draws := n |}).

(** *** Calls on [this.b2] *)

(** Sending [c] through the client: a [TypeError] when [this.b2] is
    still [null], otherwise the request is recorded and [answer] reads
    the reply off the history. *)
Definition b2_call {A} (method : string) (c : B2Call)
    (answer : list B2Call -> outcome A) : js A :=
  fun w =>
    match b2 w with
    | None =>
        (Throw ("Cannot read properties of null (reading '" +:+ method +:+ "')"), w)
    | Some _ =>
        let h := (calls w ++ [c])%list in
        (answer h,
         {| env := env w; b2 := b2 w; bucketId := bucketId w;
            bucketName := bucketName w; isInitialized := isInitialized w;
            calls := h; draws := draws w |})
    end.

(** *** initialize *)

Definition requiredEnvVars : list string :=
  [ "B2_APPLICATION_KEY_ID"; "B2_APPLICATION_KEY"; "B2_BUCKET_ID"; "B2_BUCKET_NAME" ].

(** The loop over [requiredEnvVars]. *)
Fixpoint check_env (vars : list string) : js unit :=
  match vars with
  | [] => ret tt
  | envVar :: rest =>
      let! w := get in
      if negb (truthy_string (env w !! envVar)) then
        throw ("Missing required environment variable: " +:+ envVar)
      else check_env rest
  end.

(** [this.b2 = new B2({...})] *)
Definition new_B2 : js unit :=
  fun w =>
    (Return tt,
     {| env := env w;
        b2 := Some {| applicationKeyId := env w !! "B2_APPLICATION_KEY_ID";
                      applicationKey := env w !! "B2_APPLICATION_KEY";
                      accountId := None |};
        bucketId := bucketId w; bucketName := bucketName w;
        isInitialized := isInitialized w; calls := calls w; draws := draws w |}).

(** [await this.b2.authorize()]; on success the client keeps the
    account id of the reply. *)
Definition b2_authorize_call : js unit :=
  let! w := get in
  match b2 w with
  | None => throw "Cannot read properties of null (reading 'authorize')"
  | Some client =>
      let! account := b2_call "authorize"
                        (authorize (applicationKeyId client) (applicationKey client))
                        (b2_authorize ext) in
      fun w' =>
        (Return tt,
         {| env := env w';
            b2 := Some {| applicationKeyId := applicationKeyId client;
                          applicationKey := applicationKey client;
                          accountId := Some account |};
            bucketId := bucketId w'; bucketName := bucketName w';
            isInitialized := isInitialized w'; calls := calls w';
            draws := draws w' |})
  end.

(** The three assignments that end the [try] block. *)
Definition set_initialized : js unit :=
  fun w =>
    (Return tt,
     {| env := env w; b2 := b2 w;
        bucketId := env w !! "B2_BUCKET_ID";
        bucketName := env w !! "B2_BUCKET_NAME";
        isInitialized := true; calls := calls w; draws := draws w |}).

Definition initialize : js unit :=
  let! w := get in
  if isInitialized w then ret tt
  else
    try_catch
      (check_env requiredEnvVars ;;;
       new_B2 ;;;
       b2_authorize_call ;;;
       set_initialized)
      (fun message => throw ("Image service initialization failed: " +:+ message)).

(** [if (!this.isInitialized) await this.initialize()] *)
Definition ensure_initialized : js unit :=
  let! w := get in
  if negb (isInitialized w) then initialize else ret tt.

(** *** validateImage *)

(** [imageBuffer.length] *)
Definition Buffer_length (imageBuffer : Buffer) : Z := Z.of_nat (length imageBuffer).

(** A [Buffer] is an object, so [!imageBuffer] is [false]. *)
Definition not_object (imageBuffer : Buffer) : bool := false.

Definition validateImage (imageBuffer : Buffer) (mimeType : string) : outcome unit :=
  if (maxFileSize <? Buffer_length imageBuffer)%Z then
    Throw ("File size exceeds maximum limit of "
           +:+ Number_toString (maxFileSize / (1024 * 1024)) +:+ "MB")
  else if negb (includes supportedFormats mimeType) then
    Throw ("Unsupported image format. Supported formats: "
           +:+ join ", " supportedFormats)
  else if not_object imageBuffer || (Buffer_length imageBuffer =? 0)%Z then
    Throw "Invalid image file: empty buffer"
  else Return tt.

(** *** getFileExtension *)

Definition getFileExtension (mimeType : string) : string :=
  or_default (mime_extension ext mimeType) "jpg".

(** *** processImage *)

(** [config.width && config.height] guards the resize. *)
Definition resize_of (config : SizeConfig) : option (Z * Z) :=
  if truthy_number (width config) && truthy_number (height config) then
    match width config, height config with
    | Some w, Some h => Some (w, h)
    | _, _ => None
    end
  else None.

(** The [switch (mimeType)]. *)
Definition encoder_of (mimeType : string) : Encoder :=
  if String.eqb mimeType "image/jpeg" then jpeg true
  else if String.eqb mimeType "image/png" then png true
  else if String.eqb mimeType "image/webp" then webp
  else jpeg true.

(** The pipeline handed to sharp for one size: the optional resize,
    then the encoder with [config.quality]. *)
Definition pipeline_of (imageBuffer : Buffer) (config : SizeConfig)
    (mimeType : string) : SharpPipeline :=
  {| sharp_input := imageBuffer;
     sharp_resize := resize_of config;
     sharp_encoder := encoder_of mimeType;
     sharp_quality := quality config |}.

Definition processImage (imageBuffer : Buffer) (config : SizeConfig)
    (mimeType : string) : outcome Buffer :=
  match sharp_toBuffer ext (pipeline_of imageBuffer config mimeType) with
  | Return processed => Return processed
  | Throw message => Throw ("Image processing failed: " +:+ message)
  end.

(** *** uploadToB2 *)

(** [process.env.B2_BUCKET_URL || `https://f${...}...`]; the right
    operand is evaluated only when the left one is falsy. *)
Definition baseUrl_of : js string :=
  let! w := get in
  if truthy_string (env w !! "B2_BUCKET_URL") then
    ret (show "undefined" (env w !! "B2_BUCKET_URL"))
  else
    match b2 w with
    | None => throw "Cannot read properties of null (reading 'accountId')"
    | Some client =>
        ret ("https://f" +:+ show "undefined" (accountId client)
             +:+ ".backblazeb2.com/file/" +:+ show "null" (bucketName w))
    end.

Definition uploadToB2 (fileBuffer : Buffer) (fileName mimeType : string) : js string :=
  try_catch
    (let! w := get in
     let! uploadUrlResponse :=
       b2_call "getUploadUrl" (getUploadUrl (bucketId w)) (b2_getUploadUrl ext) in
     let! w1 := get in
     b2_call "uploadFile"
       (uploadFile (data_uploadUrl uploadUrlResponse)
          (data_authorizationToken uploadUrlResponse)
          fileName fileBuffer mimeType
          (Number_toString (Date_now ext (calls w1))))
       (b2_uploadFile ext) ;;;
     let! baseUrl := baseUrl_of in
     ret (baseUrl +:+ "/" +:+ fileName))
    (fun message => throw ("B2 upload failed: " +:+ message)).

(** *** uploadImage *)

Record UploadData := {
  id : string;
  urls : gmap string string;
  originalName : string;
  mimeType : string;
  uploadedAt : string
}.

Record UploadResult := {
  success : bool;
  data : UploadData
}.

(** The stored filename of one size at upload time. *)
Definition upload_fileName (fileId extension sizeName : string) : string :=
  let baseFileName := fileId +:+ "." +:+ extension in
  if String.eqb sizeName "original" then baseFileName
  else fileId +:+ "_" +:+ sizeName +:+ "." +:+ extension.

(** The [for ... of Object.entries(this.imageSizes)] loop; it carries
    [uploadPromises] and the [imageUrls] object filled by the [then]
    callbacks. *)
Fixpoint upload_sizes (imageBuffer : Buffer) (mime fileId extension : string)
    (entries : list (string * SizeConfig))
    (uploadPromises : list (outcome unit)) (imageUrls : gmap string string)
    : js (list (outcome unit) * gmap string string) :=
  match entries with
  | [] => ret (uploadPromises, imageUrls)
  | (sizeName, config) :: rest =>
      let! processedBuffer := lift (processImage imageBuffer config mime) in
      let fileName := upload_fileName fileId extension sizeName in
      let! uploaded := settle (uploadToB2 processedBuffer fileName mime) in
      match uploaded with
      | Return url =>
          upload_sizes imageBuffer mime fileId extension rest
            (uploadPromises ++ [Return tt])%list (<[sizeName := url]> imageUrls)
      | Throw message =>
          upload_sizes imageBuffer mime fileId extension rest
            (uploadPromises ++ [Throw message])%list imageUrls
      end
  end.

(** [await Promise.all(promises)]: rejects with the first rejection. *)
Fixpoint Promise_all (promises : list (outcome unit)) : js unit :=
  match promises with
  | [] => ret tt
  | Return _ :: rest => Promise_all rest
  | Throw message :: _ => throw message
  end.

Definition uploadImage (imageBuffer : Buffer) (name mime : string) : js UploadResult :=
  ensure_initialized ;;;
  try_catch
    (lift (validateImage imageBuffer mime) ;;;
     let! fileId := generateUUID in
     let extension := getFileExtension mime in
     let! (uploadPromises, imageUrls) :=
       upload_sizes imageBuffer mime fileId extension imageSizes [] ∅ in
     Promise_all uploadPromises ;;;
     let! w := get in
     ret {| success := true;
            data := {| id := fileId; urls := imageUrls; originalName := name;
                       mimeType := mime;
                       uploadedAt := Date_toISOString ext (calls w) |} |})
    (fun message => throw ("Image upload failed: " +:+ message)).

(** *** getImage *)

Record ImageData := {
  body : Buffer;
  contentType : string;
  contentLength : option string;
  etag : option string
}.

(** [None] is JavaScript's [null]. *)
Definition getImage (filename : string) : js (option ImageData) :=
  ensure_initialized ;;;
  try_catch
    (let! w := get in
     let! downloadResponse :=
       b2_call "downloadFileByName" (downloadFileByName (bucketName w) filename)
         (b2_downloadFileByName ext) in
     let headers := response_headers downloadResponse in
     ret (Some {| body := response_data downloadResponse;
                  contentType := or_default (headers !! "content-type") "image/jpeg";
                  contentLength := headers !! "content-length";
                  etag := headers !! "etag" |}))
    (fun _ => ret None).

(** *** deleteFromB2 and deleteImage *)

Definition deleteFromB2 (fileName : string) : js unit :=
  try_catch
    (let! w := get in
     let! files :=
       b2_call "listFileNames" (listFileNames (bucketId w) fileName 1)
         (b2_listFileNames ext) in
     match find (fun f => String.eqb (f_fileName f) fileName) files with
     | Some file =>
         b2_call "deleteFileVersion" (deleteFileVersion (f_fileId file) fileName)
           (b2_deleteFileVersion ext)
     | None => ret tt
     end)
    (fun _ => ret tt).

(** The filename of one size as [deleteImage] rebuilds it. *)
Definition delete_fileName (fileId sizeName : string) : string :=
  if String.eqb sizeName "original" then fileId +:+ ".jpg"
  else fileId +:+ "_" +:+ sizeName +:+ ".jpg".

(** The [for ... of Object.keys(this.imageSizes)] loop. *)
Fixpoint delete_sizes (fileId : string) (sizeNames : list string)
    (deletePromises : list (outcome unit)) : js (list (outcome unit)) :=
  match sizeNames with
  | [] => ret deletePromises
  | sizeName :: rest =>
      let fileName := delete_fileName fileId sizeName in
      let! deleted := settle (deleteFromB2 fileName) in
      delete_sizes fileId rest (deletePromises ++ [deleted])%list
  end.

(** [await Promise.allSettled(promises)] never rejects. *)
Definition Promise_allSettled (promises : list (outcome unit)) : js unit := ret tt.

Definition deleteImage (fileId : string) : js bool :=
  ensure_initialized ;;;
  try_catch
    (let! deletePromises := delete_sizes fileId (map fst imageSizes) [] in
     Promise_allSettled deletePromises ;;;
     ret true)
    (fun _ => ret false).

(** *** healthCheck *)

Inductive Health :=
| healthy (initialized : bool) (bucket : option string)
    (formats : list string) (maxSize : string) (sizes : list string)
| unhealthy (error : string) (initialized : bool).

Definition healthCheck : js Health :=
  try_catch
    (ensure_initialized ;;;
     b2_call "listBuckets" listBuckets (b2_listBuckets ext) ;;;
     let! w := get in
     ret (healthy (isInitialized w) (bucketName w) supportedFormats
            (Number_toString (maxFileSize / (1024 * 1024)) +:+ "MB")
            (map fst imageSizes)))
    (fun message =>
       let! w := get in
       ret (unhealthy message (isInitialized w))).

End ImageService.

Arguments imageSizes : simpl never.

(** ** getImageMetadata

    [sharp(imageBuffer).metadata()] is the one external call of this
    method; it is passed in as [sharp_metadata]. *)

Record SharpMetadata := {
  metadata_width : option Z;
  metadata_height : option Z;
  metadata_format : option string;
  metadata_hasAlpha : option bool;
  metadata_channels : option Z
}.

Record ImageMetadata := {
  meta_width : option Z;
  meta_height : option Z;
  meta_format : option string;
  meta_size : Z;
  meta_hasAlpha : option bool;
  meta_channels : option Z
}.

Definition getImageMetadata (sharp_metadata : Buffer -> outcome SharpMetadata)
    (imageBuffer : Buffer) : outcome ImageMetadata :=
  match sharp_metadata imageBuffer with
  | Return metadata =>
      Return {| meta_width := metadata_width metadata;
                meta_height := metadata_height metadata;
                meta_format := metadata_format metadata;
                meta_size := Buffer_length imageBuffer;
                meta_hasAlpha := metadata_hasAlpha metadata;
                meta_channels := metadata_channels metadata |}
  | Throw message => Throw ("Failed to get image metadata: " +:+ message)
  end.

(** ** HTTP responses *)

(** [req.file] as multer's memory storage fills it. *)
Record File := {
  buffer : Buffer;
  originalname : string;
  mimetype : string
}.

(** The bodies the image handlers send. *)
Inductive Payload :=
| failure (code message : string)
| uploaded (result : UploadData) (message : string)
| succeeded (message : string)
| described (metadata : ImageMetadata) (name mime : string) (message : string)
| health_report (ok : bool) (report : Health) (message : string)
| image (headers : list (string * option string)) (bytes : Buffer).

Record Response := {
  status : Z;
  payload : Payload
}.

(** [res.status(code).json({ success: false, error: { code, message } })] *)
Definition error_response (code : Z) (name message : string) : Response :=
  {| status := code; payload := failure name message |}.

(** [health.status] *)
Definition Health_status (health : Health) : string :=
  match health with
  | healthy _ _ _ _ _ => "healthy"
  | unhealthy _ _ => "unhealthy"
  end.

(** ** controllers/imageController.js

    [Joi.string().uuid().required()] is passed in as [Joi_uuid]. *)

Module imageController.
Section Handlers.

Context (ext : Externals).
Context (Joi_uuid : string -> bool).
Context (sharp_metadata : Buffer -> outcome SharpMetadata).

Definition uploadImage (file : option File) : js Response :=
  try_catch
    (match file with
     | None => ret (error_response 400 "NO_FILE" "No image file provided")
     | Some f =>
         let! result := uploadImage ext (buffer f) (originalname f) (mimetype f) in
         ret {| status := 201;
                payload := uploaded (data result) "Image uploaded successfully" |}
     end)
    (fun message =>
       ret (error_response 500 "UPLOAD_FAILED"
              (or_default (Some message) "Failed to upload image"))).

Definition deleteImage (fileId : string) : js Response :=
  try_catch
    (if negb (Joi_uuid fileId) then
       ret (error_response 400 "INVALID_FILE_ID" "Invalid file ID format")
     else
       let! success := deleteImage ext fileId in
       if success then
         ret {| status := 200; payload := succeeded "Image deleted successfully" |}
       else
         ret (error_response 404 "DELETE_FAILED"
                "Failed to delete image or image not found"))
    (fun message =>
       ret (error_response 500 "DELETE_ERROR"
              (or_default (Some message) "Failed to delete image"))).

Definition getImageMetadata (file : option File) : js Response :=
  try_catch
    (match file with
     | None => ret (error_response 400 "NO_FILE" "No image file provided")
     | Some f =>
         lift (validateImage (buffer f) (mimetype f)) ;;;
         let! metadata := lift (getImageMetadata sharp_metadata (buffer f)) in
         ret {| status := 200;
                payload := described metadata (originalname f) (mimetype f)
                             "Image metadata retrieved successfully" |}
     end)
    (fun message =>
       ret (error_response 500 "METADATA_ERROR"
              (or_default (Some message) "Failed to get image metadata"))).

Definition proxyImage (filename : string) : js Response :=
  try_catch
    (if negb (truthy_string (Some filename)) then
       ret (error_response 400 "INVALID_FILENAME" "Invalid filename provided")
     else
       let! imageData := getImage ext filename in
       match imageData with
       | None => ret (error_response 404 "IMAGE_NOT_FOUND" "Image not found")
       | Some found =>
           ret {| status := 200;
                  payload :=
                    image
                      [ ("Content-Type",
                         Some (or_default (Some (contentType found)) "image/jpeg"));
                        ("Content-Length", contentLength found);
                        ("Cache-Control", Some "public, max-age=31536000");
                        ("ETag", Some (or_default (etag found) filename)) ]
                      (body found) |}
       end)
    (fun message =>
       ret (error_response 500 "PROXY_ERROR"
              (or_default (Some message) "Failed to proxy image"))).

Definition healthCheck : js Response :=
  try_catch
    (let! health := healthCheck ext in
     let statusCode :=
       if String.eqb (Health_status health) "healthy" then 200 else 503 in
     ret {| status := statusCode;
            payload := health_report (String.eqb (Health_status health) "healthy")
                         health ("Image service is " +:+ Health_status health) |})
    (fun message =>
       ret (error_response 503 "HEALTH_CHECK_FAILED"
              (or_default (Some message) "Health check failed"))).

End Handlers.
End imageController.

(** ** routes/images.js *)

Module imagesRoutes.

(** [limits.fileSize] of the multer configuration. *)
Definition fileSize : Z := 10 * 1024 * 1024.

(** [fileFilter]: [cb(null, true)] returns, [cb(new Error(...), false)]
    throws. *)
Definition fileFilter (mimetype : string) : outcome bool :=
  let allowedMimeTypes := [ "image/jpeg"; "image/png"; "image/webp" ] in
  if includes allowedMimeTypes mimetype then Return true
  else Throw "Invalid file type. Only JPEG, PNG, and WebP images are allowed.".

(** An error reaching [handleMulterError]: a [multer.MulterError] with
    its [code], or any other [Error]. *)
Inductive UploadError :=
| MulterError (code message : string)
| OtherError (message : string).

Definition error_message (error : UploadError) : string :=
  match error with
  | MulterError _ message => message
  | OtherError message => message
  end.

(** [haystack.includes(needle)] on strings. *)
Fixpoint String_includes (haystack needle : string) : bool :=
  if String.prefix needle haystack then true
  else match haystack with
       | EmptyString => false
       | String _ rest => String_includes rest needle
       end.

(** [None] stands for [next(error)]. *)
Definition handleMulterError (error : UploadError) : option Response :=
  match error with
  | MulterError code message =>
      if String.eqb code "LIMIT_FILE_SIZE" then
        Some (error_response 400 "FILE_TOO_LARGE" "File size exceeds 10MB limit")
      else if String.eqb code "LIMIT_FILE_COUNT" then
        Some (error_response 400 "TOO_MANY_FILES"
                "Only one file can be uploaded at a time")
      else Some (error_response 400 "UPLOAD_ERROR" message)
  | OtherError message =>
      if String_includes message "Invalid file type" then
        Some (error_response 400 "INVALID_FILE_TYPE" message)
      else None
  end.

End imagesRoutes.

(** ** Definitions used in the statements *)

(** The three checks of [validateImage] as a function of the length
    and the MIME type alone. *)
Definition validate_by_length (len : Z) (mimeType : string) : outcome unit :=
  if (maxFileSize <? len)%Z then
    Throw "File size exceeds maximum limit of 10MB"
  else if negb (includes supportedFormats mimeType) then
    Throw "Unsupported image format. Supported formats: image/jpeg, image/png, image/webp"
  else if (len =? 0)%Z then Throw "Invalid image file: empty buffer"
  else Return tt.

(** [w] after the requests [cs] have been sent. *)
Definition add_calls (w : World) (cs : list B2Call) : World :=
  {| env := env w; b2 := b2 w; bucketId := bucketId w;
     bucketName := bucketName w; isInitialized := isInitialized w;
     calls := (calls w ++ cs)%list; draws := draws w |}.

(** The exact-name test of [deleteFromB2]. *)
Definition same_name (fileName : string) (f : FileEntry) : bool :=
  String.eqb (f_fileName f) fileName.

(** The requests one [deleteFromB2] sends from [w]: nothing without a
    client, otherwise the listing and, when the listing holds an entry
    of exactly that name, one delete for the first such entry. *)
Definition deleteFromB2_requests (ext : Externals) (fileName : string)
    (w : World) : list B2Call :=
  match b2 w with
  | None => []
  | Some _ =>
      let listing := listFileNames (bucketId w) fileName 1 in
      listing ::
        match b2_listFileNames ext (calls w ++ [listing])%list with
        | Return files =>
            match find (same_name fileName) files with
            | Some file => [deleteFileVersion (f_fileId file) fileName]
            | None => []
            end
        | Throw _ => []
        end
  end.

(** The requests of the whole loop of [deleteImage]. *)
Fixpoint delete_requests (ext : Externals) (fileId : string)
    (sizeNames : list string) (w : World) : list B2Call :=
  match sizeNames with
  | [] => []
  | sizeName :: rest =>
      let first := deleteFromB2_requests ext (delete_fileName fileId sizeName) w in
      (first ++ delete_requests ext fileId rest (add_calls w first))%list
  end.

(** The names asked for by the listing requests among [cs]. *)
Definition listed_names (cs : list B2Call) : list string :=
  flat_map (fun c => match c with
                     | listFileNames _ startFileName _ => [startFileName]
                     | _ => []
                     end) cs.

(** What [getImage] builds from a download reply. *)
Definition image_of (downloadResponse : DownloadResponse) : ImageData :=
  let headers := response_headers downloadResponse in
  {| body := response_data downloadResponse;
     contentType := or_default (headers !! "content-type") "image/jpeg";
     contentLength := headers !! "content-length";
     etag := headers !! "etag" |}.

(** The part of the state that only [initialize] writes. *)
Definition session (w : World) :=
  (env w, b2 w, bucketId w, bucketName w, isInitialized w).

(** All promises of the list are fulfilled. *)
Definition fulfilled (promises : list (outcome unit)) : bool :=
  forallb (fun p => match p with Return _ => true | Throw _ => false end) promises.

(** The [imageUrls] object after all uploads of [entries] succeeded. *)
Definition expected_urls (baseUrl fileId extension : string)
    (entries : list (string * SizeConfig)) (imageUrls : gmap string string)
    : gmap string string :=
  fold_left
    (fun m entry =>
       <[fst entry := baseUrl +:+ "/" +:+ upload_fileName fileId extension (fst entry)]> m)
    entries imageUrls.

(** A lower-case hexadecimal digit. *)
Definition hex_char (c : ascii) : bool :=
  existsb (Ascii.eqb c) (list_ascii_of_string "0123456789abcdef").

(** A variant digit of a version-4 UUID. *)
Definition variant_char (c : ascii) : bool :=
  existsb (Ascii.eqb c) (list_ascii_of_string "89ab").

(** What position [i] of a version-4 UUID must hold: dashes after 8,
    13, 18 and 23 characters, the version digit [4], a variant digit
    among [8], [9], [a], [b], and hexadecimal digits elsewhere. *)
Definition uuid_v4_char (i : nat) (c : ascii) : bool :=
  if existsb (Nat.eqb i) [8; 13; 18; 23]%nat then Ascii.eqb c "-"
  else if Nat.eqb i 14 then Ascii.eqb c "4"
  else if Nat.eqb i 19 then variant_char c
  else hex_char c.

Fixpoint uuid_v4_from (i : nat) (s : string) : bool :=
  match s with
  | EmptyString => Nat.eqb i 36
  | String c rest => uuid_v4_char i c && uuid_v4_from (S i) rest
  end.

(** The 36-character layout of a version-4 UUID. *)
Definition uuid_v4_shape (s : string) : bool := uuid_v4_from 0 s.

(** The requests the upload path may send. *)
Definition upload_traffic (c : B2Call) : bool :=
  match c with
  | authorize _ _ | getUploadUrl _ | uploadFile _ _ _ _ _ _ => true
  | _ => false
  end.

(** Name and MIME type of the files uploaded by the requests [cs]. *)
Definition uploaded_files (cs : list B2Call) : list (string * string) :=
  flat_map (fun c => match c with
                     | uploadFile _ _ fileName _ mime _ => [(fileName, mime)]
                     | _ => []
                     end) cs.

(** The requests one [uploadToB2] sends from [w]. *)
Definition uploadToB2_requests (ext : Externals) (fileBuffer : Buffer)
    (fileName mime : string) (w : World) : list B2Call :=
  match b2 w with
  | None => []
  | Some _ =>
      let slot_request := getUploadUrl (bucketId w) in
      let h := (calls w ++ [slot_request])%list in
      slot_request ::
        match b2_getUploadUrl ext h with
        | Return slot =>
            [uploadFile (data_uploadUrl slot) (data_authorizationToken slot)
               fileName fileBuffer mime (Number_toString (Date_now ext h))]
        | Throw _ => []
        end
  end.

(** A call on the public interface of the service. *)
Inductive ServiceCall :=
| call_initialize
| call_uploadImage (imageBuffer : Buffer) (name mime : string)
| call_getImage (filename : string)
| call_deleteImage (fileId : string)
| call_healthCheck.

(** The service after one call, whatever the call returned. *)
Definition after (ext : Externals) (c : ServiceCall) (w : World) : World :=
  match c with
  | call_initialize => snd (initialize ext w)
  | call_uploadImage imageBuffer name mime => snd (uploadImage ext imageBuffer name mime w)
  | call_getImage filename => snd (getImage ext filename w)
  | call_deleteImage fileId => snd (deleteImage ext fileId w)
  | call_healthCheck => snd (healthCheck ext w)
  end.


(** What the initialized flag stands for: an authorized client, the
    bucket taken from the environment, and the four required variables
    set. *)
Definition session_ready (w : World) : Prop :=
  isInitialized w = true ->
  (exists client account, b2 w = Some client /\ accountId client = Some account)
  /\ bucketId w = env w !! "B2_BUCKET_ID"
  /\ bucketName w = env w !! "B2_BUCKET_NAME"
  /\ forall envVar, In envVar requiredEnvVars ->
       truthy_string (env w !! envVar) = true.

(** ** Sample surroundings

    A store that accepts every request and holds no file, an encoder
    that returns its input, and the extensions that mime-types gives
    for the three supported formats; then variants of it in which one
    operation misbehaves. *)

Definition sample_mime_extension (mimeType : string) : option string :=
  if String.eqb mimeType "image/jpeg" then Some "jpeg"
  else if String.eqb mimeType "image/png" then Some "png"
  else if String.eqb mimeType "image/webp" then Some "webp"
  else None.

Definition sample_ext : Externals :=
  {| random_nibble := fun n => Z.of_nat n;
     mime_extension := sample_mime_extension;
     sharp_toBuffer := fun p => Return (sharp_input p);
     Date_now := fun _ => 1700000000000;
     Date_toISOString := fun _ => "2023-11-14T22:13:20.000Z";
     b2_authorize := fun _ => Return "0123456789ab";
     b2_getUploadUrl := fun _ =>
       Return {| data_uploadUrl := "https://pod.backblaze.example/upload";
                 data_authorizationToken := "token" |};
     b2_uploadFile := fun _ => Return tt;
     b2_downloadFileByName := fun _ => Throw "Request failed with status code 404";
     b2_listFileNames := fun _ => Return [];
     b2_deleteFileVersion := fun _ => Return tt;
     b2_listBuckets := fun _ => Return tt |}.

Definition sample_env : gmap string string :=
  <["B2_APPLICATION_KEY_ID" := "key-id"]>
    (<["B2_APPLICATION_KEY" := "key"]>
       (<["B2_BUCKET_ID" := "bucket-1"]>
          (<["B2_BUCKET_NAME" := "gems"]> ∅))).

(** The service after a successful [initialize] in [sample_env]. *)
Definition sample_world : World :=
  {| env := sample_env;
     b2 := Some {| applicationKeyId := Some "key-id";
                   applicationKey := Some "key";
                   accountId := Some "0123456789ab" |};
     bucketId := Some "bucket-1";
     bucketName := Some "gems";
     isInitialized := true;
     calls := [authorize (Some "key-id") (Some "key")];
     draws := 0 |}.

(** A three-byte buffer. *)
Definition sample_buffer : Buffer := [Byte.xff; Byte.xd8; Byte.xff].

(** A store whose listing answers every request with [files]. *)
Definition listing_always (files : list FileEntry) : Externals :=
  {| random_nibble := random_nibble sample_ext;
     mime_extension := mime_extension sample_ext;
     sharp_toBuffer := sharp_toBuffer sample_ext;
     Date_now := Date_now sample_ext;
     Date_toISOString := Date_toISOString sample_ext;
     b2_authorize := b2_authorize sample_ext;
     b2_getUploadUrl := b2_getUploadUrl sample_ext;
     b2_uploadFile := b2_uploadFile sample_ext;
     b2_downloadFileByName := b2_downloadFileByName sample_ext;
     b2_listFileNames := fun _ => Return files;
     b2_deleteFileVersion := fun _ => Throw "Request failed with status code 400";
     b2_listBuckets := b2_listBuckets sample_ext |}.

(** Every attempt fails at the listing and the call still reports
    [true]. *)
Definition listing_fails : Externals :=
  {| random_nibble := random_nibble sample_ext;
     mime_extension := mime_extension sample_ext;
     sharp_toBuffer := sharp_toBuffer sample_ext;
     Date_now := Date_now sample_ext;
     Date_toISOString := Date_toISOString sample_ext;
     b2_authorize := b2_authorize sample_ext;
     b2_getUploadUrl := b2_getUploadUrl sample_ext;
     b2_uploadFile := b2_uploadFile sample_ext;
     b2_downloadFileByName := b2_downloadFileByName sample_ext;
     b2_listFileNames := fun _ => Throw "socket hang up";
     b2_deleteFileVersion := b2_deleteFileVersion sample_ext;
     b2_listBuckets := b2_listBuckets sample_ext |}.

(** A store whose download answers every request with [answer]. *)
Definition download_answers (answer : outcome DownloadResponse) : Externals :=
  {| random_nibble := random_nibble sample_ext;
     mime_extension := mime_extension sample_ext;
     sharp_toBuffer := sharp_toBuffer sample_ext;
     Date_now := Date_now sample_ext;
     Date_toISOString := Date_toISOString sample_ext;
     b2_authorize := b2_authorize sample_ext;
     b2_getUploadUrl := b2_getUploadUrl sample_ext;
     b2_uploadFile := b2_uploadFile sample_ext;
     b2_downloadFileByName := fun _ => answer;
     b2_listFileNames := b2_listFileNames sample_ext;
     b2_deleteFileVersion := b2_deleteFileVersion sample_ext;
     b2_listBuckets := b2_listBuckets sample_ext |}.

(** An encoder that rejects every input. *)
Definition sharp_fails : Externals :=
  {| random_nibble := random_nibble sample_ext;
     mime_extension := mime_extension sample_ext;
     sharp_toBuffer := fun _ => Throw "Input buffer contains unsupported image format";
     Date_now := Date_now sample_ext;
     Date_toISOString := Date_toISOString sample_ext;
     b2_authorize := b2_authorize sample_ext;
     b2_getUploadUrl := b2_getUploadUrl sample_ext;
     b2_uploadFile := b2_uploadFile sample_ext;
     b2_downloadFileByName := b2_downloadFileByName sample_ext;
     b2_listFileNames := b2_listFileNames sample_ext;
     b2_deleteFileVersion := b2_deleteFileVersion sample_ext;
     b2_listBuckets := b2_listBuckets sample_ext |}.

(** A store that refuses the credentials. *)
Definition authorize_fails : Externals :=
  {| random_nibble := random_nibble sample_ext;
     mime_extension := mime_extension sample_ext;
     sharp_toBuffer := sharp_toBuffer sample_ext;
     Date_now := Date_now sample_ext;
     Date_toISOString := Date_toISOString sample_ext;
     b2_authorize := fun _ => Throw "Request failed with status code 401";
     b2_getUploadUrl := b2_getUploadUrl sample_ext;
     b2_uploadFile := b2_uploadFile sample_ext;
     b2_downloadFileByName := b2_downloadFileByName sample_ext;
     b2_listFileNames := b2_listFileNames sample_ext;
     b2_deleteFileVersion := b2_deleteFileVersion sample_ext;
     b2_listBuckets := b2_listBuckets sample_ext |}.

(** A store that grants upload slots and then refuses every file. *)
Definition uploads_fail : Externals :=
  {| random_nibble := random_nibble sample_ext;
     mime_extension := mime_extension sample_ext;
     sharp_toBuffer := sharp_toBuffer sample_ext;
     Date_now := Date_now sample_ext;
     Date_toISOString := Date_toISOString sample_ext;
     b2_authorize := b2_authorize sample_ext;
     b2_getUploadUrl := b2_getUploadUrl sample_ext;
     b2_uploadFile := fun _ => Throw "Request failed with status code 503";
     b2_downloadFileByName := b2_downloadFileByName sample_ext;
     b2_listFileNames := b2_listFileNames sample_ext;
     b2_deleteFileVersion := b2_deleteFileVersion sample_ext;
     b2_listBuckets := b2_listBuckets sample_ext |}.



(** An environment with the key id only. *)
Definition partial_env : gmap string string :=
  <["B2_APPLICATION_KEY_ID" := "key-id"]> ∅.

(** A download reply with a body and no headers. *)
Definition bare_download : DownloadResponse :=
  {| response_data := sample_buffer; response_headers := ∅ |}.

(** A valid upload of [sample_buffer]. *)
Definition sample_file : File :=
  {| buffer := sample_buffer; originalname := "cafe.jpg"; mimetype := "image/jpeg" |}.

(** * Properties *)

(** ** Auxiliary facts *)

(** Exposes the plumbing of the monad in a goal. *)
Ltac js_run := unfold bind, try_catch, get, ret, throw, lift, settle.

Lemma append_cancel_l (p s t : string) : p +:+ s = p +:+ t -> s = t.
Proof.
  induction p as [|c p IH]; simpl; intros H; [exact H|].
  injection H as H. auto.
Qed.

Lemma maxFileSize_text : Number_toString (maxFileSize / (1024 * 1024)) = "10".
Proof. reflexivity. Qed.

Lemma sample_initialize :
  initialize sample_ext (constructed sample_env) = (Return tt, sample_world).
Proof. vm_compute. reflexivity. Qed.

(** ** Validator *)

Lemma validateImage_by_length (imageBuffer : Buffer) (mimeType : string) :
  validateImage imageBuffer mimeType
  = validate_by_length (Buffer_length imageBuffer) mimeType.
Proof.
  unfold validateImage, validate_by_length, not_object.
  rewrite maxFileSize_text. reflexivity.
Qed.

(** C9: two buffers of the same length and the same declared MIME type
    get the same verdict from [validateImage], error message included;
    the bytes are never looked at. *)
Theorem validateImage_length_and_mime_only (b1 b2 : Buffer) (mimeType : string) :
  length b1 = length b2 ->
  validateImage b1 mimeType = validateImage b2 mimeType.
Proof.
  intros Hlen. rewrite !validateImage_by_length.
  unfold Buffer_length. rewrite Hlen. reflexivity.
Qed.

Lemma validateImage_length_and_mime_only_witness :
  validateImage [Byte.x00; Byte.x01] "image/png"
  = validateImage [Byte.xff; Byte.xfe] "image/png".
Proof.
  apply (validateImage_length_and_mime_only [Byte.x00; Byte.x01] [Byte.xff; Byte.xfe]).
  reflexivity.
Defined.

(** C2, as stated, fails: an empty buffer declared as [image/gif] is
    rejected by the format check, which comes before the emptiness
    check, and the error is the unsupported-format one. *)
Lemma validateImage_empty_gif_is_format_error :
  validateImage [] "image/gif"
  = Throw "Unsupported image format. Supported formats: image/jpeg, image/png, image/webp"
  /\ validateImage [] "image/gif" <> Throw "Invalid image file: empty buffer".
Proof. split; [reflexivity | discriminate]. Qed.

(** C2, amended: on a 0-byte buffer [validateImage] always fails; the
    error is the empty-buffer one exactly for the supported MIME types
    and the unsupported-format one for every other MIME type. *)
Theorem validateImage_empty_buffer (mimeType : string) :
  validateImage [] mimeType
  = if includes supportedFormats mimeType
    then Throw "Invalid image file: empty buffer"
    else Throw "Unsupported image format. Supported formats: image/jpeg, image/png, image/webp".
Proof.
  rewrite validateImage_by_length. unfold validate_by_length. simpl Buffer_length.
  destruct (includes supportedFormats mimeType); reflexivity.
Qed.

(** ** Session *)

(** C8: when the initialized flag is set, [initialize] returns at once:
    no request is sent and the client, the bucket id, the bucket name
    and every other part of the state stay as they were. *)
Theorem initialize_idempotent (ext : Externals) (w : World) :
  isInitialized w = true ->
  initialize ext w = (Return tt, w).
Proof.
  intros Hinit. unfold initialize; js_run. rewrite Hinit. reflexivity.
Qed.

Lemma initialize_idempotent_witness :
  initialize sample_ext sample_world = (Return tt, sample_world).
Proof. apply (initialize_idempotent sample_ext sample_world). reflexivity. Defined.

Lemma ensure_initialized_ready (ext : Externals) (w : World) :
  isInitialized w = true ->
  ensure_initialized ext w = (Return tt, w).
Proof.
  intros Hinit. unfold ensure_initialized; js_run. rewrite Hinit. reflexivity.
Qed.

Lemma initialize_sets_flag (ext : Externals) (w w' : World) :
  initialize ext w = (Return tt, w') -> isInitialized w' = true.
Proof.
  unfold initialize, bind at 1, get.
  destruct (isInitialized w) eqn:Hflag.
  - intros [= <-]. assumption.
  - unfold try_catch, bind at 1.
    destruct (check_env requiredEnvVars w) as [[[]|e] w1]; [|discriminate].
    unfold bind at 1, new_B2. unfold bind at 1.
    destruct (b2_authorize_call ext _) as [[[]|e] w2]; [|discriminate].
    unfold set_initialized. intros [= <-]. reflexivity.
Qed.

(** A second [initialize] after a successful one changes nothing. *)
Lemma initialize_twice (ext : Externals) (w w' : World) :
  initialize ext w = (Return tt, w') ->
  (initialize ext ;;; initialize ext) w = initialize ext w.
Proof.
  intros Hfirst. unfold bind. rewrite Hfirst.
  unfold initialize at 1, bind, get, ret.
  rewrite (initialize_sets_flag ext w w' Hfirst). reflexivity.
Qed.

(** ** Stored filenames *)

Lemma upload_delete_fileName_differ (fileId extension sizeName : string) :
  extension <> "jpg" ->
  upload_fileName fileId extension sizeName <> delete_fileName fileId sizeName.
Proof.
  intros Hext Heq. apply Hext.
  unfold upload_fileName, delete_fileName in Heq.
  destruct (String.eqb sizeName "original").
  - apply append_cancel_l in Heq.
    change (String "." extension = String "." "jpg") in Heq. congruence.
  - apply append_cancel_l in Heq.
    apply (append_cancel_l "_") in Heq. apply append_cancel_l in Heq.
    change (String "." extension = String "." "jpg") in Heq. congruence.
Qed.

(** ** Requests sent by the deletion path *)

Lemma add_calls_nil (w : World) : add_calls w [] = w.
Proof. destruct w. unfold add_calls. simpl. rewrite app_nil_r. reflexivity. Qed.

Lemma add_calls_app (w : World) (cs ds : list B2Call) :
  add_calls (add_calls w cs) ds = add_calls w (cs ++ ds)%list.
Proof. unfold add_calls. simpl. rewrite app_assoc. reflexivity. Qed.

Lemma find_In {A} (pred : A -> bool) (l : list A) (x : A) :
  find pred l = Some x -> In x l /\ pred x = true.
Proof.
  induction l as [|y l IH]; simpl; [discriminate|].
  destruct (pred y) eqn:Hy.
  - intros [= ->]. auto.
  - intros H. destruct (IH H). auto.
Qed.

Lemma find_none {A} (pred : A -> bool) (l : list A) :
  (forall x, In x l -> pred x = false) -> find pred l = None.
Proof.
  induction l as [|y l IH]; simpl; intros H; [reflexivity|].
  rewrite (H y) by auto. apply IH. auto.
Qed.

Lemma deleteFromB2_run (ext : Externals) (fileName : string) (w : World) :
  deleteFromB2 ext fileName w
  = (Return tt, add_calls w (deleteFromB2_requests ext fileName w)).
Proof.
  unfold deleteFromB2, deleteFromB2_requests, try_catch, bind, get, b2_call, ret.
  fold (same_name fileName).
  destruct (b2 w) as [client|] eqn:Hb2; simpl.
  - destruct (b2_listFileNames ext _) as [files|message]; simpl.
    + destruct (find (same_name fileName) files) as [file|]; simpl.
      * destruct (b2_deleteFileVersion ext _) as [[]|message];
          unfold add_calls; rewrite Hb2; simpl; rewrite <- app_assoc; reflexivity.
      * unfold add_calls. rewrite Hb2. reflexivity.
    + unfold add_calls. rewrite Hb2. reflexivity.
  - rewrite add_calls_nil. reflexivity.
Qed.

Lemma delete_sizes_run (ext : Externals) (fileId : string) (sizeNames : list string) :
  forall (promises : list (outcome unit)) (w : World),
    delete_sizes ext fileId sizeNames promises w
    = (Return (promises ++ map (fun _ => Return tt) sizeNames)%list,
       add_calls w (delete_requests ext fileId sizeNames w)).
Proof.
  induction sizeNames as [|sizeName rest IH]; intros promises w; simpl.
  - unfold ret. rewrite app_nil_r, add_calls_nil. reflexivity.
  - unfold bind, settle. rewrite deleteFromB2_run. rewrite IH.
    rewrite add_calls_app, <- app_assoc. reflexivity.
Qed.

Lemma deleteImage_run (ext : Externals) (fileId : string) (w w0 : World) :
  ensure_initialized ext w = (Return tt, w0) ->
  deleteImage ext fileId w
  = (Return true, add_calls w0 (delete_requests ext fileId (map fst imageSizes) w0)).
Proof.
  intros Hinit. unfold deleteImage, Promise_allSettled; js_run.
  rewrite Hinit, delete_sizes_run. reflexivity.
Qed.

Lemma deleteFromB2_requests_delete (ext : Externals) (fileName : string)
    (w : World) (fid fn : string) :
  In (deleteFileVersion fid fn) (deleteFromB2_requests ext fileName w) ->
  fn = fileName /\
  exists files file,
    b2_listFileNames ext (calls w ++ [listFileNames (bucketId w) fileName 1])%list
    = Return files
    /\ In file files /\ f_fileName file = fileName /\ f_fileId file = fid.
Proof.
  unfold deleteFromB2_requests.
  destruct (b2 w); simpl; [|tauto].
  intros [H|H]; [discriminate|].
  destruct (b2_listFileNames ext _) as [files|message]; [|destruct H].
  destruct (find (same_name fileName) files) as [file|] eqn:Hfind; [|destruct H].
  destruct H as [H|[]]. injection H as <- <-.
  apply find_In in Hfind as [Hin Hname].
  unfold same_name in Hname. apply String.eqb_eq in Hname.
  split; [reflexivity|]. exists files, file. auto.
Qed.

Lemma delete_requests_delete (ext : Externals) (fileId : string)
    (sizeNames : list string) :
  forall (w : World) (fid fn : string),
    In (deleteFileVersion fid fn) (delete_requests ext fileId sizeNames w) ->
    exists sizeName h files file,
      In sizeName sizeNames /\ fn = delete_fileName fileId sizeName
      /\ b2_listFileNames ext h = Return files
      /\ In file files /\ f_fileName file = fn /\ f_fileId file = fid.
Proof.
  induction sizeNames as [|sizeName rest IH]; intros w fid fn; simpl; [tauto|].
  rewrite in_app_iff. intros [H|H].
  - apply deleteFromB2_requests_delete in H as (-> & files & file & Hl & Hin & Hn & Hi).
    eexists sizeName, _, files, file. eauto 7.
  - apply IH in H as (s & h & files & file & Hs & Hfn & Hl & Hrest).
    exists s, h, files, file. auto 7.
Qed.

Lemma deleteFromB2_requests_listed (ext : Externals) (fileName : string) (w : World) :
  b2 w <> None ->
  listed_names (deleteFromB2_requests ext fileName w) = [fileName].
Proof.
  unfold deleteFromB2_requests. destruct (b2 w); [intros _|congruence]. simpl.
  destruct (b2_listFileNames ext _) as [files|message]; [|reflexivity].
  destruct (find (same_name fileName) files); reflexivity.
Qed.

Lemma delete_requests_listed (ext : Externals) (fileId : string)
    (sizeNames : list string) :
  forall w : World,
    b2 w <> None ->
    listed_names (delete_requests ext fileId sizeNames w)
    = map (delete_fileName fileId) sizeNames.
Proof.
  induction sizeNames as [|sizeName rest IH]; intros w Hb2; simpl; [reflexivity|].
  unfold listed_names in *. rewrite flat_map_app.
  fold (listed_names (deleteFromB2_requests ext (delete_fileName fileId sizeName) w)).
  rewrite deleteFromB2_requests_listed by assumption.
  rewrite IH by assumption. reflexivity.
Qed.

(** ** Deletion *)

(** C10: [deleteFromB2] always completes; every [deleteFileVersion]
    request it sends is for the target name and for an entry of the
    listing reply whose [fileName] equals the target exactly.  When the
    reply holds no such entry (neighbouring names included), the
    listing is the only request sent and nothing else changes. *)
Theorem deleteFromB2_exact_match_only (ext : Externals) (fileName : string) (w : World) :
  let listing := listFileNames (bucketId w) fileName 1 in
  (exists issued,
      deleteFromB2 ext fileName w = (Return tt, add_calls w issued)
      /\ forall fid fn,
           In (deleteFileVersion fid fn) issued ->
           fn = fileName /\
           exists files file,
             b2_listFileNames ext (calls w ++ [listing])%list = Return files
             /\ In file files /\ f_fileName file = fileName /\ f_fileId file = fid)
  /\ ((forall files file,
          b2_listFileNames ext (calls w ++ [listing])%list = Return files ->
          In file files -> f_fileName file <> fileName) ->
      deleteFromB2 ext fileName w
      = (Return tt, add_calls w (match b2 w with Some _ => [listing] | None => [] end))).
Proof.
  intros listing. split.
  - exists (deleteFromB2_requests ext fileName w). split.
    + apply deleteFromB2_run.
    + intros fid fn. apply deleteFromB2_requests_delete.
  - intros Hnone. rewrite deleteFromB2_run. f_equal. f_equal.
    unfold deleteFromB2_requests. destruct (b2 w); [|reflexivity].
    fold listing.
    destruct (b2_listFileNames ext _) as [files|message] eqn:Hl; [|reflexivity].
    rewrite find_none; [reflexivity|].
    intros f Hin. unfold same_name. apply String.eqb_neq. eauto.
Qed.

(** A listing that returns only a neighbour of the target name causes
    no delete request. *)
Lemma deleteFromB2_exact_match_only_witness :
  deleteFromB2
    (listing_always [{| f_fileId := "4_z27c"; f_fileName := "abc_thumbnail.jpg.bak" |}])
    "abc_thumbnail.jpg" sample_world
  = (Return tt,
     add_calls sample_world [listFileNames (Some "bucket-1") "abc_thumbnail.jpg" 1]).
Proof.
  apply (deleteFromB2_exact_match_only
           (listing_always [{| f_fileId := "4_z27c"; f_fileName := "abc_thumbnail.jpg.bak" |}])
           "abc_thumbnail.jpg" sample_world).
  intros files file Hl Hin. simpl in Hl. injection Hl as <-.
  destruct Hin as [<-|[]]. discriminate.
Defined.

(** C6: once the service is initialized (already, or by the call
    itself), [deleteImage] returns [true] whatever the store answers to
    the four attempts; and when no listing reply holds an entry named
    like one of the four targets, none of the requests it sends is a
    [deleteFileVersion]. *)
Theorem deleteImage_best_effort (ext : Externals) (fileId : string) (w w0 : World) :
  ensure_initialized ext w = (Return tt, w0) ->
  exists issued,
    deleteImage ext fileId w = (Return true, add_calls w0 issued)
    /\ ((forall h files file sizeName,
            b2_listFileNames ext h = Return files -> In file files ->
            In sizeName (map fst imageSizes) ->
            f_fileName file <> delete_fileName fileId sizeName) ->
        forall fid fn, ~ In (deleteFileVersion fid fn) issued).
Proof.
  intros Hinit.
  exists (delete_requests ext fileId (map fst imageSizes) w0). split.
  - apply deleteImage_run. assumption.
  - intros Hnone fid fn Hin.
    apply delete_requests_delete in Hin
      as (sizeName & h & files & file & Hs & -> & Hl & Hfile & Hname & _).
    exact (Hnone h files file sizeName Hl Hfile Hs Hname).
Qed.

Lemma deleteImage_best_effort_witness :
  exists issued,
    deleteImage listing_fails "6f1e" sample_world
    = (Return true, add_calls sample_world issued)
    /\ forall fid fn, ~ In (deleteFileVersion fid fn) issued.
Proof.
  destruct (deleteImage_best_effort listing_fails "6f1e" sample_world sample_world eq_refl)
    as (issued & Hrun & Hnone).
  exists issued. split; [exact Hrun|].
  apply Hnone. intros h files file sizeName Hl. simpl in Hl. discriminate.
Defined.

(** C1: the four names [deleteImage] asks the store for are the asset
    identifier followed by [_thumbnail.jpg], [_medium.jpg], [_large.jpg]
    and [.jpg], whatever MIME type the asset was uploaded with; so for
    a MIME type whose upload extension is not [jpg], the name used at
    upload and the name used at deletion differ for every size. *)
Theorem deleteImage_assumes_jpg (ext : Externals) (fileId : string) :
  (forall w w0,
      ensure_initialized ext w = (Return tt, w0) -> b2 w0 <> None ->
      exists issued,
        deleteImage ext fileId w = (Return true, add_calls w0 issued)
        /\ listed_names issued
           = [ fileId +:+ "_thumbnail.jpg"; fileId +:+ "_medium.jpg";
               fileId +:+ "_large.jpg"; fileId +:+ ".jpg" ])
  /\ (forall mime sizeName,
         getFileExtension ext mime <> "jpg" ->
         upload_fileName fileId (getFileExtension ext mime) sizeName
         <> delete_fileName fileId sizeName).
Proof.
  split.
  - intros w w0 Hinit Hb2.
    exists (delete_requests ext fileId (map fst imageSizes) w0). split.
    + apply deleteImage_run. assumption.
    + rewrite delete_requests_listed by assumption. reflexivity.
  - intros mime sizeName Hext. apply upload_delete_fileName_differ. assumption.
Qed.

(** An asset uploaded as PNG: its thumbnail is stored under a [.png]
    name and looked for under a [.jpg] name. *)
Lemma deleteImage_assumes_jpg_witness :
  upload_fileName "6f1e" (getFileExtension sample_ext "image/png") "thumbnail"
  <> delete_fileName "6f1e" "thumbnail".
Proof.
  apply (deleteImage_assumes_jpg sample_ext "6f1e"). discriminate.
Defined.

(** ** Proxy reader *)

(** C4, as stated, fails: a download that breaks on a network timeout,
    not on a missing file, also makes [getImage] return [null]; nothing
    is thrown. *)
Lemma getImage_timeout_is_null :
  getImage (download_answers (Throw "connect ETIMEDOUT 149.137.128.1:443"))
    "6f1e_medium.jpg" sample_world
  = (Return None,
     add_calls sample_world [downloadFileByName (Some "gems") "6f1e_medium.jpg"])
  /\ forall message,
       fst (getImage (download_answers (Throw "connect ETIMEDOUT 149.137.128.1:443"))
              "6f1e_medium.jpg" sample_world)
       <> Throw message.
Proof. split; [reflexivity | discriminate]. Qed.

(** C4, amended: with the service initialized, [getImage] returns
    [null] whenever the download fails, whatever the failure is, and
    the image when the download succeeds; the only error [getImage]
    throws is the one of a failed initialization. *)
Theorem getImage_null_on_any_failure (ext : Externals) (filename : string) (w : World) :
  (forall w0,
      ensure_initialized ext w = (Return tt, w0) ->
      let download := downloadFileByName (bucketName w0) filename in
      (forall message,
          b2_downloadFileByName ext (calls w0 ++ [download])%list = Throw message ->
          fst (getImage ext filename w) = Return None)
      /\ (forall downloadResponse,
             b2 w0 <> None ->
             b2_downloadFileByName ext (calls w0 ++ [download])%list
             = Return downloadResponse ->
             getImage ext filename w
             = (Return (Some (image_of downloadResponse)), add_calls w0 [download])))
  /\ (forall message w',
         getImage ext filename w = (Throw message, w') ->
         ensure_initialized ext w = (Throw message, w')).
Proof.
  split.
  - intros w0 Hinit download. split.
    + intros message Hdown.
      unfold getImage, b2_call; js_run. rewrite Hinit.
      destruct (b2 w0); simpl; [|reflexivity].
      fold download. rewrite Hdown. reflexivity.
    + intros downloadResponse Hb2 Hdown.
      unfold getImage, b2_call; js_run. rewrite Hinit.
      destruct (b2 w0) eqn:Hclient; [|congruence]. simpl.
      fold download. rewrite Hdown. unfold add_calls. rewrite Hclient. reflexivity.
  - intros message w'.
    unfold getImage, b2_call; js_run.
    destruct (ensure_initialized ext w) as [[[]|e] w0]; [|intros [= -> ->]; reflexivity].
    destruct (b2 w0); simpl; [|discriminate].
    destruct (b2_downloadFileByName ext _); discriminate.
Qed.

Lemma getImage_null_on_any_failure_witness :
  fst (getImage (download_answers (Throw "socket hang up")) "6f1e.jpg" sample_world)
  = Return None.
Proof.
  apply (getImage_null_on_any_failure (download_answers (Throw "socket hang up"))
           "6f1e.jpg" sample_world) with (w0 := sample_world) (message := "socket hang up");
    reflexivity.
Defined.

(** ** Health monitor *)

(** C7: [healthCheck] always returns a report and never throws.  When
    initialization and the [listBuckets] probe both succeed the report
    is [healthy] with the initialized flag, the bucket name, the three
    formats, [10MB] and the four size names; when either fails it is
    [unhealthy] with the message of that failure and the flag as it is
    then. *)
Theorem healthCheck_never_throws (ext : Externals) (w : World) :
  exists report w',
    healthCheck ext w = (Return report, w')
    /\ ((exists w0,
            ensure_initialized ext w = (Return tt, w0)
            /\ b2_call "listBuckets" listBuckets (b2_listBuckets ext) w0 = (Return tt, w')
            /\ report = healthy (isInitialized w') (bucketName w')
                          ["image/jpeg"; "image/png"; "image/webp"] "10MB"
                          ["thumbnail"; "medium"; "large"; "original"])
        \/ (exists message,
               ensure_initialized ext w = (Throw message, w')
               /\ report = unhealthy message (isInitialized w'))
        \/ (exists w0 message,
               ensure_initialized ext w = (Return tt, w0)
               /\ b2_call "listBuckets" listBuckets (b2_listBuckets ext) w0
                  = (Throw message, w')
               /\ report = unhealthy message (isInitialized w'))).
Proof.
  unfold healthCheck; js_run.
  destruct (ensure_initialized ext w) as [[[]|message] w0].
  - destruct (b2_call "listBuckets" listBuckets (b2_listBuckets ext) w0)
      as [[[]|message] w'] eqn:Hprobe.
    + eexists _, w'. split; [reflexivity|]. left. exists w0. auto.
    + eexists _, w'. split; [reflexivity|]. right. right. exists w0, message. auto.
  - eexists _, w0. split; [reflexivity|]. right. left. exists message. auto.
Qed.

(** ** Upload *)

Lemma b2_call_session {A} (method : string) (c : B2Call)
    (answer : list B2Call -> outcome A) (w w' : World) (r : outcome A) :
  b2_call method c answer w = (r, w') -> session w' = session w.
Proof.
  unfold b2_call, session.
  destruct (b2 w) eqn:Hb2; intros [= <- <-]; simpl; rewrite ?Hb2; reflexivity.
Qed.

Lemma baseUrl_of_session (w w' : World) :
  session w = session w' -> fst (baseUrl_of w) = fst (baseUrl_of w').
Proof.
  unfold session, baseUrl_of, bind, get, ret, throw.
  intros [= -> -> _ -> _]. destruct (truthy_string _); [reflexivity|].
  destruct (b2 w'); reflexivity.
Qed.

Lemma baseUrl_of_world (w : World) : snd (baseUrl_of w) = w.
Proof.
  unfold baseUrl_of, bind, get, ret, throw.
  destruct (truthy_string _); [reflexivity|]. destruct (b2 w); reflexivity.
Qed.

Lemma generateUUID_session (ext : Externals) (w w' : World) (r : outcome string) :
  generateUUID ext w = (r, w') -> session w' = session w /\ calls w' = calls w.
Proof.
  unfold generateUUID. destruct (replace_all ext _ _). intros [= <- <-]. auto.
Qed.

(** A successful [uploadToB2] returns the base URL, a slash and the
    stored filename; failing or not, it leaves the session alone. *)
Lemma uploadToB2_run (ext : Externals) (fileBuffer : Buffer)
    (fileName mime : string) (w w' : World) (r : outcome string) :
  uploadToB2 ext fileBuffer fileName mime w = (r, w') ->
  session w' = session w
  /\ forall url, r = Return url ->
       exists baseUrl,
         fst (baseUrl_of w) = Return baseUrl
         /\ url = baseUrl +:+ "/" +:+ fileName.
Proof.
  unfold uploadToB2, try_catch, bind, get, ret, throw.
  destruct (b2_call "getUploadUrl" _ _ w) as [[slot|e1] w1] eqn:H1;
    pose proof (b2_call_session _ _ _ _ _ _ H1) as S1.
  - destruct (b2_call "uploadFile" _ _ w1) as [[[]|e2] w2] eqn:H2;
      pose proof (b2_call_session _ _ _ _ _ _ H2) as S2.
    + pose proof (baseUrl_of_world w2) as Hw.
      pose proof (baseUrl_of_session w2 w) as Hb.
      destruct (baseUrl_of w2) as [[baseUrl|e3] w3]; simpl in Hw, Hb; subst w3.
      * intros [= <- <-]. split; [congruence|].
        intros url [= <-]. exists baseUrl. split; [|reflexivity].
        symmetry. apply Hb. congruence.
      * intros [= <- <-]. split; [congruence|]. discriminate.
    + intros [= <- <-]. split; [congruence|]. discriminate.
  - intros [= <- <-]. split; [congruence|]. discriminate.
Qed.

Lemma Promise_all_Return (promises : list (outcome unit)) (w w' : World) :
  Promise_all promises w = (Return tt, w') -> fulfilled promises = true /\ w' = w.
Proof.
  induction promises as [|[[]|e] rest IH]; simpl.
  - intros [= <-]. auto.
  - exact IH.
  - discriminate.
Qed.

Lemma fulfilled_app (ps qs : list (outcome unit)) :
  fulfilled (ps ++ qs) = fulfilled ps && fulfilled qs.
Proof. apply forallb_app. Qed.

Lemma upload_sizes_Return (ext : Externals) (imageBuffer : Buffer)
    (mime fileId extension : string) (entries : list (string * SizeConfig)) :
  forall promises imageUrls w promises' imageUrls' w',
    upload_sizes ext imageBuffer mime fileId extension entries promises imageUrls w
    = (Return (promises', imageUrls'), w') ->
    session w' = session w
    /\ (fulfilled promises' = true ->
        fulfilled promises = true
        /\ (entries = [] /\ imageUrls' = imageUrls \/ exists baseUrl,
               fst (baseUrl_of w) = Return baseUrl
               /\ imageUrls' = expected_urls baseUrl fileId extension entries imageUrls)).
Proof.
  induction entries as [|[sizeName config] rest IH];
    intros promises imageUrls w promises' imageUrls' w'; simpl.
  - intros [= <- <- <-]. auto.
  - unfold bind at 1, lift.
    destruct (processImage ext imageBuffer config mime) as [processed|e]; [|discriminate].
    unfold bind at 1, settle.
    destruct (uploadToB2 ext processed _ mime w) as [[url|e] w1] eqn:Hup;
      apply uploadToB2_run in Hup as [S1 Hurl]; intros Hrest;
      apply IH in Hrest as [S2 Hrest]; (split; [congruence|]); intros Hf;
      destruct (Hrest Hf) as [Hps Hmap];
      rewrite fulfilled_app in Hps; apply andb_prop in Hps as [Hps Hlast];
      [|discriminate].
    split; [assumption|]. right.
    destruct (Hurl url eq_refl) as (baseUrl & Hbase & ->).
    exists baseUrl. split; [assumption|].
    destruct Hmap as [[-> ->]|(baseUrl' & Hbase' & ->)]; [reflexivity|].
    rewrite (baseUrl_of_session w1 w) in Hbase' by assumption.
    rewrite Hbase in Hbase'. injection Hbase' as <-. reflexivity.
Qed.

(** The steps of a successful [uploadImage]. *)
Lemma uploadImage_Return (ext : Externals) (imageBuffer : Buffer)
    (name mime : string) (w w' : World) (r : UploadResult) :
  uploadImage ext imageBuffer name mime w = (Return r, w') ->
  exists w0 fileId w1 promises imageUrls,
    ensure_initialized ext w = (Return tt, w0)
    /\ validateImage imageBuffer mime = Return tt
    /\ generateUUID ext w0 = (Return fileId, w1)
    /\ upload_sizes ext imageBuffer mime fileId (getFileExtension ext mime)
         imageSizes [] ∅ w1 = (Return (promises, imageUrls), w')
    /\ fulfilled promises = true
    /\ r = {| success := true;
              data := {| id := fileId; urls := imageUrls; originalName := name;
                         mimeType := mime;
                         uploadedAt := Date_toISOString ext (calls w') |} |}.
Proof.
  unfold uploadImage, bind at 1.
  destruct (ensure_initialized ext w) as [[[]|e] w0]; [|discriminate].
  unfold try_catch, bind at 1, lift, throw.
  destruct (validateImage imageBuffer mime) as [[]|e]; [|discriminate].
  unfold bind at 1.
  destruct (generateUUID ext w0) as [[fileId|e] w1] eqn:Hid; [|discriminate].
  unfold bind at 1.
  destruct (upload_sizes _ _ _ _ _ _ _ _ w1) as [[[promises imageUrls]|e] w2] eqn:Hloop;
    [|discriminate].
  unfold bind at 1.
  destruct (Promise_all promises w2) as [[[]|e] w3] eqn:Hall; [|discriminate].
  apply Promise_all_Return in Hall as [Hall ->].
  unfold bind, get, ret. intros [= <- <-].
  exists w0, fileId, w1, promises, imageUrls. auto 10.
Qed.

(** C5: when [uploadImage] succeeds on a buffer within the size limit
    and of a supported MIME type, the [urls] object of the result has
    four entries, one for each of thumbnail, medium, large and
    original; each is the base URL, a slash, and the stored filename
    built from the identifier returned in the same result, minted by
    [generateUUID] during the call: [id_size.ext] for the three resized
    variants and [id.ext] for the original. *)
Theorem uploadImage_urls (ext : Externals) (imageBuffer : Buffer)
    (name mime : string) (w w' : World) (r : UploadResult) :
  (Buffer_length imageBuffer <= maxFileSize)%Z ->
  includes supportedFormats mime = true ->
  uploadImage ext imageBuffer name mime w = (Return r, w') ->
  let fileId := id (data r) in
  let extension := getFileExtension ext mime in
  (exists w0 w1,
      ensure_initialized ext w = (Return tt, w0)
      /\ generateUUID ext w0 = (Return fileId, w1))
  /\ exists baseUrl,
       fst (baseUrl_of w') = Return baseUrl
       /\ size (urls (data r)) = 4%nat
       /\ urls (data r) !! "thumbnail"
          = Some (baseUrl +:+ "/" +:+ fileId +:+ "_thumbnail." +:+ extension)
       /\ urls (data r) !! "medium"
          = Some (baseUrl +:+ "/" +:+ fileId +:+ "_medium." +:+ extension)
       /\ urls (data r) !! "large"
          = Some (baseUrl +:+ "/" +:+ fileId +:+ "_large." +:+ extension)
       /\ urls (data r) !! "original"
          = Some (baseUrl +:+ "/" +:+ fileId +:+ "." +:+ extension).
Proof.
  intros _ _ Hrun.
  apply uploadImage_Return in Hrun
    as (w0 & fileId & w1 & promises & imageUrls & Hinit & _ & Hid & Hloop & Hall & ->).
  simpl. split; [eauto|].
  apply upload_sizes_Return in Hloop as [Hs Hurls].
  destruct (Hurls Hall) as [_ [[Hnil _]|(baseUrl & Hbase & ->)]]; [discriminate|].
  exists baseUrl. split.
  { rewrite (baseUrl_of_session w' w1) by assumption. assumption. }
  unfold expected_urls, imageSizes, upload_fileName. simpl.
  split; [|repeat split; by simplify_map_eq].
  rewrite !map_size_insert_None; [reflexivity|..]; by simplify_map_eq.
Qed.

Lemma uploadImage_urls_witness :
  exists r w',
    uploadImage sample_ext sample_buffer "cafe.jpg" "image/jpeg" sample_world
    = (Return r, w')
    /\ size (urls (data r)) = 4%nat
    /\ urls (data r) !! "original"
       = Some ("https://f0123456789ab.backblazeb2.com/file/gems"
               +:+ "/" +:+ id (data r) +:+ "." +:+ "jpeg").
Proof.
  destruct (uploadImage sample_ext sample_buffer "cafe.jpg" "image/jpeg" sample_world)
    as [[r|e] w'] eqn:Hrun; [|vm_compute in Hrun; discriminate].
  exists r, w'. split; [reflexivity|].
  assert (Hbase : session w' = session sample_world).
  { apply uploadImage_Return in Hrun
      as (w0 & fileId & w1 & ps & us & Hinit & _ & Hid & Hloop & _).
    injection Hinit as <-.
    apply generateUUID_session in Hid as [Hid _].
    apply upload_sizes_Return in Hloop as [Hloop _]. congruence. }
  destruct (uploadImage_urls sample_ext sample_buffer "cafe.jpg" "image/jpeg"
              sample_world w' r)
    as (_ & baseUrl & Hb & Hsize & _ & _ & _ & Horig).
  - vm_compute. discriminate.
  - reflexivity.
  - exact Hrun.
  - split; [exact Hsize|].
    rewrite (baseUrl_of_session w' sample_world Hbase) in Hb.
    injection Hb as <-. exact Horig.
Defined.

(** ** Error propagation in upload *)

Lemma processImage_Throw (ext : Externals) (imageBuffer : Buffer)
    (config : SizeConfig) (mime message : string) :
  processImage ext imageBuffer config mime = Throw message ->
  exists cause,
    sharp_toBuffer ext (pipeline_of imageBuffer config mime) = Throw cause
    /\ message = "Image processing failed: " +:+ cause.
Proof.
  unfold processImage.
  destruct (sharp_toBuffer ext _) as [processed|cause]; [discriminate|].
  intros [= <-]. eauto.
Qed.

(** When some size fails to transcode, the loop ends by throwing the
    error of [processImage] for the first such size. *)
Lemma upload_sizes_process_failure (ext : Externals) (imageBuffer : Buffer)
    (mime fileId extension : string) (entries : list (string * SizeConfig)) :
  forall promises imageUrls w,
    (exists sizeName config message,
        In (sizeName, config) entries
        /\ processImage ext imageBuffer config mime = Throw message) ->
    exists sizeName config message,
      In (sizeName, config) entries
      /\ processImage ext imageBuffer config mime = Throw message
      /\ fst (upload_sizes ext imageBuffer mime fileId extension entries
                promises imageUrls w) = Throw message.
Proof.
  induction entries as [|[sizeName config] rest IH]; intros promises imageUrls w.
  - intros (? & ? & ? & [] & _).
  - intros (s & c & m & Hin & Hfail). simpl.
    unfold bind at 1, lift.
    destruct (processImage ext imageBuffer config mime) as [processed|e] eqn:Hhead.
    + assert (Hrest : exists s c m, In (s, c) rest
                        /\ processImage ext imageBuffer c mime = Throw m).
      { destruct Hin as [[= <- <-]|Hin]; [congruence|eauto]. }
      unfold bind at 1, settle.
      destruct (uploadToB2 ext processed _ mime w) as [[url|e] w1];
        edestruct IH as (s' & c' & m' & Hin' & Hfail' & Hrun'); eauto;
        exists s', c', m'; rewrite Hrun'; auto.
    + exists sizeName, config, e. auto.
Qed.

(** C3, as stated, fails: the empty-buffer error of the validator
    reaches the caller of [uploadImage] under a longer message. *)
Lemma uploadImage_rewrites_validation_message :
  validateImage [] "image/jpeg" = Throw "Invalid image file: empty buffer"
  /\ uploadImage sample_ext [] "cafe.jpg" "image/jpeg" sample_world
     = (Throw "Image upload failed: Invalid image file: empty buffer", sample_world)
  /\ "Image upload failed: Invalid image file: empty buffer"
     <> "Invalid image file: empty buffer".
Proof. repeat split. discriminate. Qed.

(** C3, amended: with the service initialized, a validation failure
    makes [uploadImage] throw the validator's message prefixed with
    [Image upload failed: ], before any request is sent; a transcoding
    failure makes it throw the encoder's message of some failing size
    prefixed with [Image upload failed: Image processing failed: ]. *)
Theorem uploadImage_prefixes_errors (ext : Externals) (imageBuffer : Buffer)
    (name mime : string) (w w0 : World) :
  ensure_initialized ext w = (Return tt, w0) ->
  (forall message,
      validateImage imageBuffer mime = Throw message ->
      uploadImage ext imageBuffer name mime w
      = (Throw ("Image upload failed: " +:+ message), w0))
  /\ (validateImage imageBuffer mime = Return tt ->
      (exists sizeName config cause,
          In (sizeName, config) imageSizes
          /\ sharp_toBuffer ext (pipeline_of imageBuffer config mime) = Throw cause) ->
      exists sizeName config cause,
        In (sizeName, config) imageSizes
        /\ sharp_toBuffer ext (pipeline_of imageBuffer config mime) = Throw cause
        /\ fst (uploadImage ext imageBuffer name mime w)
           = Throw ("Image upload failed: Image processing failed: " +:+ cause)).
Proof.
  intros Hinit. split.
  - intros message Hval.
    unfold uploadImage; js_run.
    rewrite Hinit, Hval. reflexivity.
  - intros Hval (s & c & cause & Hin & Hsharp).
    unfold uploadImage, bind at 1. rewrite Hinit.
    unfold try_catch, bind at 1, lift. rewrite Hval.
    unfold bind at 1.
    destruct (generateUUID ext w0) as [[fileId|e] w1] eqn:Hid.
    2:{ unfold generateUUID in Hid. destruct (replace_all ext _ _). discriminate. }
    destruct (upload_sizes_process_failure ext imageBuffer mime fileId
                (getFileExtension ext mime) imageSizes [] ∅ w1)
      as (s' & c' & m' & Hin' & Hfail' & Hrun').
    { exists s, c, ("Image processing failed: " +:+ cause). split; [assumption|].
      unfold processImage.
      rewrite Hsharp. reflexivity. }
    apply processImage_Throw in Hfail' as (cause' & Hsharp' & ->).
    exists s', c', cause'. split; [assumption|]. split; [assumption|].
    unfold bind at 1.
    destruct (upload_sizes _ _ _ _ _ _ _ _ w1) as [[[ps us]|e] w2];
      simpl in Hrun'; [discriminate|].
    injection Hrun' as ->. reflexivity.
Qed.

Lemma uploadImage_prefixes_errors_witness :
  uploadImage sharp_fails sample_buffer "cafe.jpg" "image/gif" sample_world
  = (Throw ("Image upload failed: "
            +:+ "Unsupported image format. Supported formats: image/jpeg, image/png, image/webp"),
     sample_world).
Proof.
  apply (uploadImage_prefixes_errors sharp_fails sample_buffer "cafe.jpg" "image/gif"
           sample_world sample_world); reflexivity.
Defined.

(** ** Uploads that go through *)

Section CooperativeStore.

Context (ext : Externals).
Hypothesis sharp_ok : forall p, exists processed, sharp_toBuffer ext p = Return processed.
Hypothesis slot_ok : forall h, exists slot, b2_getUploadUrl ext h = Return slot.
Hypothesis upload_ok : forall h, b2_uploadFile ext h = Return tt.

Lemma uploadToB2_succeeds (fileBuffer : Buffer) (fileName mime : string) (w : World) :
  b2 w <> None ->
  exists url w', uploadToB2 ext fileBuffer fileName mime w = (Return url, w').
Proof.
  intros Hb2. unfold uploadToB2, try_catch, bind, get, b2_call, ret.
  destruct (b2 w) as [client|] eqn:Hclient; [|congruence]. simpl.
  destruct (slot_ok (calls w ++ [getUploadUrl (bucketId w)])%list) as [slot ->].
  rewrite upload_ok.
  unfold baseUrl_of, bind, get, ret. simpl.
  destruct (truthy_string _); eauto.
Qed.

Lemma upload_sizes_succeeds (imageBuffer : Buffer) (mime fileId extension : string)
    (entries : list (string * SizeConfig)) :
  forall promises imageUrls w,
    b2 w <> None -> fulfilled promises = true ->
    exists promises' imageUrls' w',
      upload_sizes ext imageBuffer mime fileId extension entries promises imageUrls w
      = (Return (promises', imageUrls'), w')
      /\ fulfilled promises' = true.
Proof.
  induction entries as [|[sizeName config] rest IH]; intros promises imageUrls w Hb2 Hps.
  - simpl. unfold ret. eauto.
  - simpl. unfold bind at 1, lift, processImage.
    destruct (sharp_ok (pipeline_of imageBuffer config mime)) as [processed ->].
    unfold bind at 1, settle.
    destruct (uploadToB2_succeeds processed
                (upload_fileName fileId extension sizeName) mime w Hb2)
      as (url & w1 & Hup).
    rewrite Hup. apply IH.
    + apply uploadToB2_run in Hup as [Hs _].
      unfold session in Hs. congruence.
    + rewrite fulfilled_app, Hps. reflexivity.
Qed.

(** With a client in place, an encoder that accepts the image and a
    store that grants and accepts every upload, a valid image is
    uploaded. *)
Lemma uploadImage_succeeds (imageBuffer : Buffer) (name mime : string) (w : World) :
  isInitialized w = true -> b2 w <> None ->
  validateImage imageBuffer mime = Return tt ->
  exists r w', uploadImage ext imageBuffer name mime w = (Return r, w').
Proof.
  intros Hinit Hb2 Hval.
  unfold uploadImage, bind at 1. rewrite (ensure_initialized_ready ext w Hinit).
  unfold try_catch, bind at 1, lift. rewrite Hval.
  unfold bind at 1.
  destruct (generateUUID ext w) as [[fileId|e] w1] eqn:Hid.
  2:{ unfold generateUUID in Hid. destruct (replace_all ext _ _). discriminate. }
  apply generateUUID_session in Hid as [Hs _].
  destruct (upload_sizes_succeeds imageBuffer mime fileId (getFileExtension ext mime)
              imageSizes [] ∅ w1) as (ps & us & w2 & Hloop & Hall).
  { unfold session in Hs. congruence. }
  { reflexivity. }
  unfold bind at 1. rewrite Hloop.
  unfold bind at 1.
  destruct (Promise_all ps w2) as [[[]|e] w3] eqn:Hp.
  - unfold bind, get, ret. eauto.
  - exfalso. clear - Hall Hp. revert Hp.
    induction ps as [|[[]|e'] rest IHps]; simpl in *;
      [discriminate | auto | discriminate].
Qed.

End CooperativeStore.

(** ** Asset identifiers *)

Lemma random16_range (ext : Externals) (n : nat) : (0 <= random16 ext n < 16)%Z.
Proof. unfold random16. apply Z.mod_pos_bound. reflexivity. Qed.

Lemma hexDigit_hex (v : Z) : (0 <= v < 16)%Z -> hex_char (hexDigit v) = true.
Proof.
  intros Hv. unfold hexDigit.
  assert (Hn : (Z.to_nat v < 16)%nat) by lia.
  revert Hn. generalize (Z.to_nat v). intros n Hn.
  do 16 (destruct n as [|n]; [reflexivity|]). lia.
Qed.

Lemma hexDigit_variant (r : Z) :
  (0 <= r < 16)%Z -> variant_char (hexDigit (Z.lor (Z.land r 3) 8)) = true.
Proof.
  intros Hr. rewrite <- (Z2Nat.id r) by lia.
  assert (Hn : (Z.to_nat r < 16)%nat) by lia.
  revert Hn. generalize (Z.to_nat r). intros n Hn.
  do 16 (destruct n as [|n]; [reflexivity|]). lia.
Qed.

Lemma replace_xy_x (ext : Externals) (n : nat) :
  hex_char (replace_xy ext "x" n) = true.
Proof. apply hexDigit_hex, random16_range. Qed.

Lemma replace_xy_y (ext : Externals) (n : nat) :
  variant_char (replace_xy ext "y" n) = true.
Proof. apply hexDigit_variant, random16_range. Qed.

(** X1: whatever [Math.random] yields, [generateUUID] returns a string
    of the version-4 layout: 36 characters, dashes after 8, 13, 18 and
    23 characters, [4] as the version digit, one of [8], [9], [a], [b]
    as the variant digit and lower-case hexadecimal digits elsewhere.
    It draws 31 random numbers and touches nothing else. *)
Theorem generateUUID_v4_shape (ext : Externals) (w : World) :
  exists s w',
    generateUUID ext w = (Return s, w')
    /\ uuid_v4_shape s = true
    /\ draws w' = (draws w + 31)%nat
    /\ session w' = session w /\ calls w' = calls w.
Proof.
  unfold generateUUID.
  destruct (replace_all ext _ (draws w)) as [s n] eqn:Hs.
  eexists s, _. split; [reflexivity|].
  cbn -[replace_xy] in Hs. injection Hs as <- <-.
  split; [|split; [simpl; lia | split; reflexivity]].
  unfold uuid_v4_shape. cbn -[replace_xy hex_char variant_char].
  rewrite !replace_xy_x, replace_xy_y. reflexivity.
Qed.

(** ** Initialization *)

Lemma check_env_world (vars : list string) (w : World) :
  snd (check_env vars w) = w.
Proof.
  induction vars as [|envVar rest IH]; simpl; [reflexivity|].
  js_run. destruct (negb _); [reflexivity|]. exact IH.
Qed.

Lemma check_env_Return (vars : list string) (w w' : World) :
  check_env vars w = (Return tt, w') <->
  w' = w /\ forall envVar, In envVar vars -> truthy_string (env w !! envVar) = true.
Proof.
  induction vars as [|envVar rest IH]; simpl.
  - js_run. split; [intros [= <-]|intros [-> _]]; [split; [reflexivity|tauto]|reflexivity].
  - js_run. destruct (truthy_string (env w !! envVar)) eqn:Hv; simpl.
    + rewrite IH. split; intros [-> H]; (split; [reflexivity|]).
      * intros v [<-|Hin]; auto.
      * auto.
    + split; [discriminate|]. intros [_ H]. specialize (H envVar (or_introl eq_refl)).
      congruence.
Qed.

Lemma check_env_Throw (vars : list string) (w : World) :
  (exists envVar, In envVar vars /\ truthy_string (env w !! envVar) = false) ->
  exists envVar,
    In envVar vars /\ truthy_string (env w !! envVar) = false
    /\ check_env vars w
       = (Throw ("Missing required environment variable: " +:+ envVar), w).
Proof.
  induction vars as [|envVar rest IH]; simpl.
  - intros (? & [] & _).
  - intros (v & Hin & Hv). js_run.
    destruct (truthy_string (env w !! envVar)) eqn:Hhead; simpl.
    + destruct IH as (v' & Hin' & Hv' & Hrun).
      { destruct Hin as [<-|Hin]; [congruence|eauto]. }
      exists v'. auto.
    + exists envVar. auto.
Qed.

(** X2: when the service is not initialized and one of the four
    required environment variables is missing or empty, [initialize]
    throws an error naming such a variable, and nothing has happened:
    no client is created and no request is sent. *)
Theorem initialize_missing_variable (ext : Externals) (w : World) :
  isInitialized w = false ->
  (exists envVar, In envVar requiredEnvVars
                  /\ truthy_string (env w !! envVar) = false) ->
  exists envVar,
    In envVar requiredEnvVars /\ truthy_string (env w !! envVar) = false
    /\ initialize ext w
       = (Throw ("Image service initialization failed: "
                 +:+ "Missing required environment variable: " +:+ envVar), w).
Proof.
  intros Hflag Hmissing.
  destruct (check_env_Throw requiredEnvVars w Hmissing) as (v & Hin & Hv & Hrun).
  exists v. split; [assumption|]. split; [assumption|].
  unfold initialize. js_run. rewrite Hflag, Hrun. reflexivity.
Qed.

Lemma initialize_missing_variable_witness :
  exists envVar,
    In envVar requiredEnvVars
    /\ truthy_string (partial_env !! envVar) = false
    /\ initialize sample_ext (constructed partial_env)
       = (Throw ("Image service initialization failed: "
                 +:+ "Missing required environment variable: " +:+ envVar),
          constructed partial_env).
Proof.
  apply (initialize_missing_variable sample_ext (constructed partial_env)).
  - reflexivity.
  - exists "B2_BUCKET_ID". split; [simpl; tauto | reflexivity].
Defined.

(** The steps of [initialize] once the environment is complete. *)
Lemma initialize_run (ext : Externals) (w : World) :
  isInitialized w = false ->
  (forall envVar, In envVar requiredEnvVars ->
                  truthy_string (env w !! envVar) = true) ->
  let client :=
    {| applicationKeyId := env w !! "B2_APPLICATION_KEY_ID";
       applicationKey := env w !! "B2_APPLICATION_KEY";
       accountId := None |} in
  let request := authorize (applicationKeyId client) (applicationKey client) in
  initialize ext w
  = match b2_authorize ext (calls w ++ [request])%list with
    | Return account =>
        (Return tt,
         {| env := env w;
            b2 := Some {| applicationKeyId := applicationKeyId client;
                          applicationKey := applicationKey client;
                          accountId := Some account |};
            bucketId := env w !! "B2_BUCKET_ID";
            bucketName := env w !! "B2_BUCKET_NAME";
            isInitialized := true;
            calls := (calls w ++ [request])%list; draws := draws w |})
    | Throw message =>
        (Throw ("Image service initialization failed: " +:+ message),
         {| env := env w; b2 := Some client; bucketId := bucketId w;
            bucketName := bucketName w; isInitialized := false;
            calls := (calls w ++ [request])%list; draws := draws w |})
    end.
Proof.
  intros Hflag Henv client request.
  unfold initialize. unfold bind at 1, get. rewrite Hflag.
  unfold try_catch, bind at 1.
  rewrite (proj2 (check_env_Return requiredEnvVars w w) (conj eq_refl Henv)).
  unfold bind at 1, new_B2. unfold bind at 1.
  unfold b2_authorize_call, b2_call. js_run. simpl.
  fold client. fold request.
  destruct (b2_authorize ext _) as [account|message]; simpl.
  - unfold set_initialized. reflexivity.
  - rewrite Hflag. reflexivity.
Qed.

(** X3: with the environment complete, a refused [authorize] makes
    [initialize] throw the store's message behind the initialization
    prefix; exactly one request, the [authorize], has been sent; the
    new client stays in [this.b2] without an account id, the bucket
    fields are untouched and the initialized flag is still clear. *)
Theorem initialize_authorize_failure (ext : Externals) (w : World) (message : string) :
  isInitialized w = false ->
  (forall envVar, In envVar requiredEnvVars ->
                  truthy_string (env w !! envVar) = true) ->
  let request := authorize (env w !! "B2_APPLICATION_KEY_ID")
                   (env w !! "B2_APPLICATION_KEY") in
  b2_authorize ext (calls w ++ [request])%list = Throw message ->
  initialize ext w
  = (Throw ("Image service initialization failed: " +:+ message),
     {| env := env w;
        b2 := Some {| applicationKeyId := env w !! "B2_APPLICATION_KEY_ID";
                      applicationKey := env w !! "B2_APPLICATION_KEY";
                      accountId := None |};
        bucketId := bucketId w; bucketName := bucketName w;
        isInitialized := false;
        calls := (calls w ++ [request])%list; draws := draws w |}).
Proof.
  intros Hflag Henv request Hauth.
  rewrite (initialize_run ext w Hflag Henv). simpl. fold request.
  rewrite Hauth. reflexivity.
Qed.

Lemma initialize_authorize_failure_witness :
  initialize authorize_fails (constructed sample_env)
  = (Throw ("Image service initialization failed: "
            +:+ "Request failed with status code 401"),
     {| env := sample_env;
        b2 := Some {| applicationKeyId := sample_env !! "B2_APPLICATION_KEY_ID";
                      applicationKey := sample_env !! "B2_APPLICATION_KEY";
                      accountId := None |};
        bucketId := None; bucketName := None; isInitialized := false;
        calls := [authorize (sample_env !! "B2_APPLICATION_KEY_ID")
                    (sample_env !! "B2_APPLICATION_KEY")];
        draws := 0 |}).
Proof.
  apply (initialize_authorize_failure authorize_fails (constructed sample_env)).
  - reflexivity.
  - intros envVar [<-|[<-|[<-|[<-|[]]]]]; reflexivity.
  - reflexivity.
Defined.

(** X4: with the environment complete, an accepted [authorize] makes
    [initialize] return after exactly one request; the client then
    holds the account id of the reply, the bucket id and name are those
    of the environment and the initialized flag is set. *)
Theorem initialize_success (ext : Externals) (w : World) (account : string) :
  isInitialized w = false ->
  (forall envVar, In envVar requiredEnvVars ->
                  truthy_string (env w !! envVar) = true) ->
  let request := authorize (env w !! "B2_APPLICATION_KEY_ID")
                   (env w !! "B2_APPLICATION_KEY") in
  b2_authorize ext (calls w ++ [request])%list = Return account ->
  initialize ext w
  = (Return tt,
     {| env := env w;
        b2 := Some {| applicationKeyId := env w !! "B2_APPLICATION_KEY_ID";
                      applicationKey := env w !! "B2_APPLICATION_KEY";
                      accountId := Some account |};
        bucketId := env w !! "B2_BUCKET_ID";
        bucketName := env w !! "B2_BUCKET_NAME";
        isInitialized := true;
        calls := (calls w ++ [request])%list; draws := draws w |}).
Proof.
  intros Hflag Henv request Hauth.
  rewrite (initialize_run ext w Hflag Henv). simpl. fold request.
  rewrite Hauth. reflexivity.
Qed.

Lemma initialize_success_witness :
  initialize sample_ext (constructed sample_env)
  = (Return tt,
     {| env := sample_env;
        b2 := Some {| applicationKeyId := sample_env !! "B2_APPLICATION_KEY_ID";
                      applicationKey := sample_env !! "B2_APPLICATION_KEY";
                      accountId := Some "0123456789ab" |};
        bucketId := sample_env !! "B2_BUCKET_ID";
        bucketName := sample_env !! "B2_BUCKET_NAME";
        isInitialized := true;
        calls := [authorize (sample_env !! "B2_APPLICATION_KEY_ID")
                    (sample_env !! "B2_APPLICATION_KEY")];
        draws := 0 |}).
Proof.
  apply (initialize_success sample_ext (constructed sample_env)).
  - reflexivity.
  - intros envVar [<-|[<-|[<-|[<-|[]]]]]; reflexivity.
  - reflexivity.
Defined.

(** ** What the operations send and what they leave alone *)

Lemma add_calls_session (w : World) (cs : list B2Call) :
  session (add_calls w cs) = session w.
Proof. reflexivity. Qed.

Lemma session_ready_session (w w' : World) :
  session w' = session w -> session_ready w -> session_ready w'.
Proof.
  unfold session, session_ready. intros [= -> -> -> -> ->]. tauto.
Qed.

Lemma ensure_initialized_initialize (ext : Externals) (w : World) :
  ensure_initialized ext w = initialize ext w.
Proof.
  unfold ensure_initialized, initialize. js_run.
  destruct (isInitialized w) eqn:Hflag; simpl; [reflexivity|].
  rewrite Hflag. reflexivity.
Qed.

(** Everything the later proofs need to know about [initialize]. *)
Lemma initialize_effect (ext : Externals) (w w' : World) (r : outcome unit) :
  initialize ext w = (r, w') ->
  env w' = env w /\ draws w' = draws w
  /\ (exists issued, calls w' = (calls w ++ issued)%list
                     /\ (issued = [] \/ exists keyId key, issued = [authorize keyId key]))
  /\ (session_ready w -> session_ready w')
  /\ (r = Return tt -> isInitialized w' = true)
  /\ (isInitialized w = true -> w' = w)
  /\ (forall message, r = Throw message ->
        isInitialized w = false
        /\ exists cause, message = "Image service initialization failed: " +:+ cause).
Proof.
  destruct (isInitialized w) eqn:Hflag.
  - unfold initialize. js_run. rewrite Hflag. intros [= <- <-].
    refine (conj _ (conj _ (conj _ (conj _ (conj _ (conj _ _)))))); auto.
    + exists []. rewrite app_nil_r. auto.
    + discriminate.
  - destruct (check_env requiredEnvVars w) as [[[]|e] w1] eqn:Hcheck.
    + apply check_env_Return in Hcheck as [-> Henv].
      rewrite (initialize_run ext w Hflag Henv). simpl.
      destruct (b2_authorize ext _) as [account|message]; intros [= <- <-]; simpl;
        refine (conj _ (conj _ (conj _ (conj _ (conj _ (conj _ _)))))); auto;
        try discriminate.
      * eexists [_]. split; [reflexivity|]. right. eauto.
      * intros Hready Hset. simpl.
        split; [eexists _, _; split; reflexivity|].
        split; [reflexivity|]. split; [reflexivity|exact Henv].
      * eexists [_]. split; [reflexivity|]. right. eauto.
      * intros m [= <-]. eauto.
    + pose proof (check_env_world requiredEnvVars w) as Hw.
      rewrite Hcheck in Hw. simpl in Hw. subst w1.
      unfold initialize. js_run. rewrite Hflag, Hcheck. intros [= <- <-].
      refine (conj _ (conj _ (conj _ (conj _ (conj _ (conj _ _)))))); auto;
        try discriminate.
      * exists []. rewrite app_nil_r. auto.
      * intros m [= <-]. eauto.
Qed.

Lemma generateUUID_returns (ext : Externals) (w : World) :
  exists s w', generateUUID ext w = (Return s, w').
Proof. unfold generateUUID. destruct (replace_all ext _ _). eauto. Qed.

Lemma uploadToB2_world (ext : Externals) (fileBuffer : Buffer)
    (fileName mime : string) (w : World) :
  snd (uploadToB2 ext fileBuffer fileName mime w)
  = add_calls w (uploadToB2_requests ext fileBuffer fileName mime w).
Proof.
  unfold uploadToB2, uploadToB2_requests, b2_call. js_run.
  destruct (b2 w) as [client|] eqn:Hclient; simpl.
  - destruct (b2_getUploadUrl ext _) as [slot|e]; simpl.
    + destruct (b2_uploadFile ext _) as [[]|e]; simpl.
      * match goal with
        | |- context [baseUrl_of ?x] =>
            pose proof (baseUrl_of_world x) as Hbase;
            destruct (baseUrl_of x) as [[base|e] w3]
        end; simpl in *; subst w3;
          unfold add_calls; rewrite Hclient, <- app_assoc; reflexivity.
      * unfold add_calls. rewrite Hclient, <- app_assoc. reflexivity.
    + unfold add_calls. rewrite Hclient. reflexivity.
  - rewrite add_calls_nil. reflexivity.
Qed.

Lemma uploadToB2_requests_traffic (ext : Externals) (fileBuffer : Buffer)
    (fileName mime : string) (w : World) :
  forallb upload_traffic (uploadToB2_requests ext fileBuffer fileName mime w) = true.
Proof.
  unfold uploadToB2_requests. destruct (b2 w); [|reflexivity]. simpl.
  destruct (b2_getUploadUrl ext _); reflexivity.
Qed.

Lemma uploadToB2_Return_files (ext : Externals) (fileBuffer : Buffer)
    (fileName mime url : string) (w : World) :
  fst (uploadToB2 ext fileBuffer fileName mime w) = Return url ->
  uploaded_files (uploadToB2_requests ext fileBuffer fileName mime w)
  = [(fileName, mime)].
Proof.
  unfold uploadToB2, uploadToB2_requests, b2_call. js_run.
  destruct (b2 w) as [client|]; simpl; [|discriminate].
  destruct (b2_getUploadUrl ext _) as [slot|e]; simpl; [|discriminate].
  reflexivity.
Qed.

Lemma Promise_all_world (promises : list (outcome unit)) (w : World) :
  snd (Promise_all promises w) = w.
Proof. induction promises as [|[[]|e] rest IH]; simpl; auto. Qed.

Lemma uploaded_files_app (cs ds : list B2Call) :
  uploaded_files (cs ++ ds) = (uploaded_files cs ++ uploaded_files ds)%list.
Proof. apply flat_map_app. Qed.

(** The requests of the loop of [uploadImage] and the way it can fail. *)
Lemma upload_sizes_effect (ext : Externals) (imageBuffer : Buffer)
    (mime fileId extension : string) (entries : list (string * SizeConfig)) :
  forall promises imageUrls w r w',
    upload_sizes ext imageBuffer mime fileId extension entries promises imageUrls w
    = (r, w') ->
    exists issued,
      w' = add_calls w issued
      /\ forallb upload_traffic issued = true
      /\ (forall promises' imageUrls',
             r = Return (promises', imageUrls') -> fulfilled promises' = true ->
             uploaded_files issued
             = map (fun entry => (upload_fileName fileId extension (fst entry), mime))
                 entries)
      /\ (forall message,
             r = Throw message ->
             exists cause, message = "Image processing failed: " +:+ cause).
Proof.
  induction entries as [|[sizeName config] rest IH];
    intros promises imageUrls w r w'; simpl.
  - intros [= <- <-]. exists []. rewrite add_calls_nil.
    split; [reflexivity|]. split; [reflexivity|]. split; [reflexivity|discriminate].
  - unfold bind at 1, lift.
    destruct (processImage ext imageBuffer config mime) as [processed|e] eqn:Hp.
    2:{ intros [= <- <-]. exists []. rewrite add_calls_nil.
        split; [reflexivity|]. split; [reflexivity|]. split; [discriminate|].
        intros m [= <-]. apply processImage_Throw in Hp as (cause & _ & ->). eauto. }
    unfold bind at 1, settle.
    pose proof (uploadToB2_world ext processed
                  (upload_fileName fileId extension sizeName) mime w) as Hw1.
    pose proof (uploadToB2_requests_traffic ext processed
                  (upload_fileName fileId extension sizeName) mime w) as Ht.
    pose proof (fun url => uploadToB2_Return_files ext processed
                  (upload_fileName fileId extension sizeName) mime url w) as Hf.
    destruct (uploadToB2 ext processed _ mime w) as [[url|e] w1];
      simpl in Hw1; subst w1; intros Hrest;
      pose proof Hrest as Hret;
      apply IH in Hrest as (issued & -> & Htraffic & Hfiles & Hmsg);
      eexists (_ ++ issued)%list; rewrite add_calls_app;
      (split; [reflexivity|]); rewrite forallb_app, Ht, Htraffic;
      (split; [reflexivity|]); (split; [|exact Hmsg]);
      intros ps' us' -> Hall.
    + rewrite uploaded_files_app, (Hf url eq_refl), (Hfiles ps' us' eq_refl Hall).
      reflexivity.
    + apply upload_sizes_Return in Hret as [_ Hret].
      destruct (Hret Hall) as [Hps _].
      rewrite fulfilled_app in Hps. apply andb_prop in Hps as [_ Hps]. discriminate.
Qed.

Lemma session_env (w w' : World) : session w' = session w -> env w' = env w.
Proof. unfold session. congruence. Qed.

(** Everything the later proofs need to know about [uploadImage]. *)
Lemma uploadImage_effect (ext : Externals) (imageBuffer : Buffer)
    (name mime : string) (w w' : World) (r : outcome UploadResult) :
  uploadImage ext imageBuffer name mime w = (r, w') ->
  env w' = env w
  /\ (session_ready w -> session_ready w')
  /\ (isInitialized w = true -> session w' = session w)
  /\ (exists issued,
         calls w' = (calls w ++ issued)%list
         /\ forallb upload_traffic issued = true
         /\ forall result,
              r = Return result ->
              uploaded_files issued
              = map (fun entry =>
                       (upload_fileName (id (data result)) (getFileExtension ext mime)
                          (fst entry), mime))
                  imageSizes)
  /\ (forall message,
         r = Throw message ->
         (exists cause, message = "Image upload failed: " +:+ cause)
         \/ (isInitialized w = false
             /\ exists cause,
                  message = "Image service initialization failed: " +:+ cause)).
Proof.
  unfold uploadImage, bind at 1. rewrite ensure_initialized_initialize.
  destruct (initialize ext w) as [[[]|e] w0] eqn:Hinit;
    apply initialize_effect in Hinit
      as (Henv & _ & (issued0 & Hcalls0 & Hissued0) & Hready & _ & Hsame & Hmsg0).
  2:{ intros [= <- <-].
      split; [assumption|]. split; [assumption|].
      split; [intros Hflag; rewrite (Hsame Hflag); reflexivity|].
      split.
      - exists issued0. split; [assumption|].
        split; [|discriminate].
        destruct Hissued0 as [->|(k & s & ->)]; reflexivity.
      - intros m [= <-]. right. exact (Hmsg0 e eq_refl). }
  assert (Hfiles0 : uploaded_files issued0 = []).
  { destruct Hissued0 as [->|(k & s & ->)]; reflexivity. }
  assert (Htraffic0 : forallb upload_traffic issued0 = true).
  { destruct Hissued0 as [->|(k & s & ->)]; reflexivity. }
  unfold try_catch, bind at 1, lift, throw.
  destruct (validateImage imageBuffer mime) as [[]|e].
  2:{ intros [= <- <-].
      split; [assumption|]. split; [assumption|].
      split; [intros Hflag; rewrite (Hsame Hflag); reflexivity|].
      split; [|intros m [= <-]; eauto].
      exists issued0. split; [assumption|]. split; [assumption|discriminate]. }
  unfold bind at 1.
  destruct (generateUUID_returns ext w0) as (fileId & w1 & Hid).
  destruct (generateUUID_session ext w0 w1 _ Hid) as [Hs1 Hc1].
  rewrite Hid. unfold bind at 1.
  destruct (upload_sizes _ _ _ _ _ _ _ _ w1) as [[[ps us]|e] w2] eqn:Hloop;
    apply upload_sizes_effect in Hloop as (issued & -> & Htraffic & Hfiles & Hmsg);
    assert (Hs2 : session (add_calls w1 issued) = session w0)
      by (rewrite add_calls_session; exact Hs1).
  2:{ intros [= <- <-].
      split; [rewrite (session_env _ _ Hs2); assumption|].
      split; [intros Hr; apply (session_ready_session w0); auto|].
      split; [intros Hflag; rewrite Hs2, (Hsame Hflag); reflexivity|].
      split; [|intros m [= <-]; eauto].
      exists (issued0 ++ issued)%list. simpl.
      rewrite Hc1, Hcalls0, <- app_assoc, forallb_app, Htraffic0, Htraffic.
      split; [reflexivity|]. split; [reflexivity|discriminate]. }
  unfold bind at 1.
  pose proof (Promise_all_world ps (add_calls w1 issued)) as Hpw.
  destruct (Promise_all ps (add_calls w1 issued)) as [[[]|e] w3] eqn:Hall;
    simpl in Hpw; subst w3.
  - apply Promise_all_Return in Hall as [Hall _].
    js_run. intros [= <- <-].
    split; [rewrite (session_env _ _ Hs2); assumption|].
    split; [intros Hr; apply (session_ready_session w0); auto|].
    split; [intros Hflag; rewrite Hs2, (Hsame Hflag); reflexivity|].
    split; [|discriminate].
    exists (issued0 ++ issued)%list. simpl.
    rewrite Hc1, Hcalls0, <- app_assoc, forallb_app, Htraffic0, Htraffic.
    split; [reflexivity|]. split; [reflexivity|].
    intros result [= <-]. simpl.
    rewrite uploaded_files_app, Hfiles0. exact (Hfiles ps us eq_refl Hall).
  - intros [= <- <-].
    split; [rewrite (session_env _ _ Hs2); assumption|].
    split; [intros Hr; apply (session_ready_session w0); auto|].
    split; [intros Hflag; rewrite Hs2, (Hsame Hflag); reflexivity|].
    split; [|intros m [= <-]; eauto].
    exists (issued0 ++ issued)%list. simpl.
    rewrite Hc1, Hcalls0, <- app_assoc, forallb_app, Htraffic0, Htraffic.
    split; [reflexivity|]. split; [reflexivity|discriminate].
Qed.

(** A method that starts with [if (!this.isInitialized) await
    this.initialize()] and then leaves the session alone. *)
Lemma guarded_effect (ext : Externals) {A} (rest : js A) :
  (forall w0 r w', rest w0 = (r, w') -> session w' = session w0) ->
  forall w r w',
    (ensure_initialized ext ;;; rest) w = (r, w') ->
    env w' = env w
    /\ (session_ready w -> session_ready w')
    /\ (isInitialized w = true -> session w' = session w).
Proof.
  intros Hrest w r w'. unfold bind. rewrite ensure_initialized_initialize.
  destruct (initialize ext w) as [[[]|e] w0] eqn:Hinit;
    apply initialize_effect in Hinit as (Henv & _ & _ & Hready & _ & Hsame & _).
  - intros Hrun. apply Hrest in Hrun.
    split; [rewrite (session_env _ _ Hrun); assumption|].
    split; [intros Hr; apply (session_ready_session w0); auto|].
    intros Hflag. rewrite Hrun, (Hsame Hflag). reflexivity.
  - intros [= <- <-].
    split; [assumption|]. split; [assumption|].
    intros Hflag. rewrite (Hsame Hflag). reflexivity.
Qed.

Lemma getImage_effect (ext : Externals) (filename : string) (w w' : World)
    (r : outcome (option ImageData)) :
  getImage ext filename w = (r, w') ->
  env w' = env w
  /\ (session_ready w -> session_ready w')
  /\ (isInitialized w = true -> session w' = session w).
Proof.
  unfold getImage. apply guarded_effect. clear. intros w0 r w'.
  unfold try_catch, bind at 1, get. unfold bind.
  destruct (b2_call _ _ _ w0) as [[resp|e] w1] eqn:Hcall;
    apply b2_call_session in Hcall; unfold ret; intros [= <- <-]; assumption.
Qed.

Lemma deleteImage_effect (ext : Externals) (fileId : string) (w w' : World)
    (r : outcome bool) :
  deleteImage ext fileId w = (r, w') ->
  env w' = env w
  /\ (session_ready w -> session_ready w')
  /\ (isInitialized w = true -> session w' = session w).
Proof.
  unfold deleteImage. apply guarded_effect. clear - ext. intros w0 r w'.
  unfold try_catch, bind at 1. rewrite delete_sizes_run.
  unfold Promise_allSettled. js_run. intros [= <- <-]. apply add_calls_session.
Qed.

Lemma healthCheck_effect (ext : Externals) (w w' : World) (r : outcome Health) :
  healthCheck ext w = (r, w') ->
  env w' = env w
  /\ (session_ready w -> session_ready w')
  /\ (isInitialized w = true -> session w' = session w).
Proof.
  unfold healthCheck, try_catch, bind at 1. rewrite ensure_initialized_initialize.
  destruct (initialize ext w) as [[[]|e] w0] eqn:Hinit;
    apply initialize_effect in Hinit as (Henv & _ & _ & Hready & _ & Hsame & _).
  - unfold bind at 1.
    destruct (b2_call _ _ _ w0) as [[[]|e] w1] eqn:Hcall;
      apply b2_call_session in Hcall; js_run; intros [= <- <-];
      (split; [rewrite (session_env _ _ Hcall); assumption|]);
      (split; [intros Hr; apply (session_ready_session w0); auto|]);
      intros Hflag; rewrite Hcall, (Hsame Hflag); reflexivity.
  - js_run. intros [= <- <-].
    split; [assumption|]. split; [assumption|].
    intros Hflag. rewrite (Hsame Hflag). reflexivity.
Qed.

Lemma after_effect (ext : Externals) (c : ServiceCall) (w : World) :
  env (after ext c w) = env w
  /\ (session_ready w -> session_ready (after ext c w))
  /\ (isInitialized w = true -> session (after ext c w) = session w).
Proof.
  destruct c as [|imageBuffer name mime|filename|fileId|]; simpl.
  - destruct (initialize ext w) as [r w'] eqn:Hrun.
    apply initialize_effect in Hrun as (Henv & _ & _ & Hready & _ & Hsame & _).
    simpl. split; [assumption|]. split; [assumption|].
    intros Hflag. rewrite (Hsame Hflag). reflexivity.
  - destruct (uploadImage ext imageBuffer name mime w) as [r w'] eqn:Hrun.
    apply uploadImage_effect in Hrun as (Henv & Hready & Hsame & _). auto.
  - destruct (getImage ext filename w) as [r w'] eqn:Hrun.
    apply getImage_effect in Hrun. exact Hrun.
  - destruct (deleteImage ext fileId w) as [r w'] eqn:Hrun.
    apply deleteImage_effect in Hrun. exact Hrun.
  - destruct (healthCheck ext w) as [r w'] eqn:Hrun.
    apply healthCheck_effect in Hrun. exact Hrun.
Qed.


(** X6: on a service whose initialized flag is set, none of the calls
    [initialize], [uploadImage], [getImage], [deleteImage] and
    [healthCheck] changes the environment, the client, the bucket id,
    the bucket name or the flag, whether the call succeeds or fails. *)
Theorem session_written_by_initialize_only (ext : Externals) (c : ServiceCall)
    (w : World) :
  isInitialized w = true ->
  session (after ext c w) = session w.
Proof. intros Hflag. apply after_effect. assumption. Qed.

Lemma session_written_by_initialize_only_witness :
  session (after uploads_fail
             (call_uploadImage sample_buffer "cafe.jpg" "image/png") sample_world)
  = session sample_world.
Proof.
  apply (session_written_by_initialize_only uploads_fail
           (call_uploadImage sample_buffer "cafe.jpg" "image/png") sample_world).
  reflexivity.
Defined.

(** ** Requests of the upload path *)

(** X7: [uploadToB2] asks for an upload slot first; when the store
    refuses the slot, no file is sent and the error is the store's
    message behind [B2 upload failed: ]; when the slot is granted and
    the file refused, the file was sent once, with the URL and token of
    that slot, and the error is wrapped the same way. *)
Theorem uploadToB2_wraps_store_errors (ext : Externals) (fileBuffer : Buffer)
    (fileName mime : string) (w : World) :
  b2 w <> None ->
  let slot_request := getUploadUrl (bucketId w) in
  (forall message,
      b2_getUploadUrl ext (calls w ++ [slot_request])%list = Throw message ->
      uploadToB2 ext fileBuffer fileName mime w
      = (Throw ("B2 upload failed: " +:+ message), add_calls w [slot_request]))
  /\ (forall slot message,
         b2_getUploadUrl ext (calls w ++ [slot_request])%list = Return slot ->
         let upload_request :=
           uploadFile (data_uploadUrl slot) (data_authorizationToken slot)
             fileName fileBuffer mime
             (Number_toString (Date_now ext (calls w ++ [slot_request])%list)) in
         b2_uploadFile ext (calls w ++ [slot_request; upload_request])%list
         = Throw message ->
         uploadToB2 ext fileBuffer fileName mime w
         = (Throw ("B2 upload failed: " +:+ message),
            add_calls w [slot_request; upload_request])).
Proof.
  intros Hb2 slot_request.
  destruct (b2 w) as [client|] eqn:Hclient; [clear Hb2|congruence].
  split.
  - intros message Hslot.
    unfold uploadToB2, b2_call. js_run. rewrite Hclient. simpl.
    fold slot_request. rewrite Hslot.
    unfold add_calls. rewrite Hclient. reflexivity.
  - intros slot message Hslot upload_request Hupload.
    unfold uploadToB2, b2_call. js_run. rewrite Hclient. simpl.
    fold slot_request. rewrite Hslot. simpl.
    fold upload_request.
    replace ((calls w ++ [slot_request]) ++ [upload_request])%list
      with (calls w ++ [slot_request; upload_request])%list
      by (rewrite <- app_assoc; reflexivity).
    rewrite Hupload. unfold add_calls. rewrite Hclient. reflexivity.
Qed.

Lemma uploadToB2_wraps_store_errors_witness :
  uploadToB2 uploads_fail sample_buffer "6f1e_large.png" "image/png" sample_world
  = (Throw ("B2 upload failed: " +:+ "Request failed with status code 503"),
     add_calls sample_world
       [getUploadUrl (Some "bucket-1");
        uploadFile "https://pod.backblaze.example/upload" "token" "6f1e_large.png"
          sample_buffer "image/png" "1700000000000"]).
Proof.
  apply (uploadToB2_wraps_store_errors uploads_fail sample_buffer "6f1e_large.png"
           "image/png" sample_world)
    with (slot := {| data_uploadUrl := "https://pod.backblaze.example/upload";
                     data_authorizationToken := "token" |});
    [discriminate | reflexivity | reflexivity].
Defined.

(** X8: whatever happens, the only requests [uploadImage] sends are
    [authorize], [getUploadUrl] and [uploadFile]; in particular, when
    one variant fails, no listing and no deletion is sent for the
    variants already stored. *)
Theorem uploadImage_never_rolls_back (ext : Externals) (imageBuffer : Buffer)
    (name mime : string) (w : World) :
  exists issued,
    calls (snd (uploadImage ext imageBuffer name mime w)) = (calls w ++ issued)%list
    /\ forall c, In c issued -> upload_traffic c = true.
Proof.
  destruct (uploadImage ext imageBuffer name mime w) as [r w'] eqn:Hrun.
  apply uploadImage_effect in Hrun as (_ & _ & _ & (issued & Hcalls & Htraffic & _) & _).
  exists issued. split; [assumption|].
  apply forallb_forall. assumption.
Qed.



(** ** Errors of the upload path *)

Lemma uploadToB2_Throw (ext : Externals) (fileBuffer : Buffer)
    (fileName mime message : string) (w : World) :
  fst (uploadToB2 ext fileBuffer fileName mime w) = Throw message ->
  exists cause, message = "B2 upload failed: " +:+ cause.
Proof.
  unfold uploadToB2, try_catch, throw.
  match goal with |- context [bind ?m ?k w] => destruct (bind m k w) as [[url|e] w1] end;
    simpl; [discriminate|]. intros [= <-]. eauto.
Qed.

Lemma Promise_all_Throw (promises : list (outcome unit)) (w w' : World)
    (message : string) :
  Promise_all promises w = (Throw message, w') -> In (Throw message) promises.
Proof.
  induction promises as [|[[]|e] rest IH]; simpl.
  - discriminate.
  - auto.
  - intros [= <- <-]. auto.
Qed.

Lemma upload_sizes_rejections (ext : Externals) (imageBuffer : Buffer)
    (mime fileId extension : string) (entries : list (string * SizeConfig)) :
  forall promises imageUrls w promises' imageUrls' w',
    (forall message, In (Throw message) promises ->
                     exists cause, message = "B2 upload failed: " +:+ cause) ->
    upload_sizes ext imageBuffer mime fileId extension entries promises imageUrls w
    = (Return (promises', imageUrls'), w') ->
    forall message, In (Throw message) promises' ->
                    exists cause, message = "B2 upload failed: " +:+ cause.
Proof.
  induction entries as [|[sizeName config] rest IH];
    intros promises imageUrls w promises' imageUrls' w' Hps; simpl.
  - intros [= <- <- <-]. assumption.
  - unfold bind at 1, lift.
    destruct (processImage ext imageBuffer config mime) as [processed|e]; [|discriminate].
    unfold bind at 1, settle.
    pose proof (uploadToB2_Throw ext processed
                  (upload_fileName fileId extension sizeName) mime) as Hwrap.
    destruct (uploadToB2 ext processed _ mime w) as [[url|e] w1] eqn:Hup;
      apply IH; intros m [Hin|Hin]%in_app_iff; auto;
      destruct Hin as [[= <-]|[]].
    apply (Hwrap e w). rewrite Hup. reflexivity.
Qed.

(** X10: an error thrown by [uploadImage] is of one of four kinds: the
    initialization error, only when the service was not initialized;
    or [Image upload failed: ] followed by the validator's message, by
    [Image processing failed: ...] or by [B2 upload failed: ...]. *)
Theorem uploadImage_error_kinds (ext : Externals) (imageBuffer : Buffer)
    (name mime message : string) (w w' : World) :
  uploadImage ext imageBuffer name mime w = (Throw message, w') ->
  (isInitialized w = false
   /\ exists cause, message = "Image service initialization failed: " +:+ cause)
  \/ (exists cause,
         validateImage imageBuffer mime = Throw cause
         /\ message = "Image upload failed: " +:+ cause)
  \/ (exists cause,
         message = "Image upload failed: " +:+ "Image processing failed: " +:+ cause)
  \/ (exists cause,
         message = "Image upload failed: " +:+ "B2 upload failed: " +:+ cause).
Proof.
  unfold uploadImage, bind at 1. rewrite ensure_initialized_initialize.
  destruct (initialize ext w) as [[[]|e] w0] eqn:Hinit;
    apply initialize_effect in Hinit as (_ & _ & _ & _ & _ & _ & Hmsg0).
  2:{ intros [= <- <-]. left. exact (Hmsg0 e eq_refl). }
  intros Hrun. right. revert Hrun.
  unfold try_catch, bind at 1, lift, throw.
  destruct (validateImage imageBuffer mime) as [[]|e].
  2:{ intros [= <- <-]. left. eauto. }
  intros Hrun. right. revert Hrun. unfold bind at 1.
  destruct (generateUUID ext w0) as [[fileId|e] w1] eqn:Hid.
  2:{ destruct (generateUUID_returns ext w0) as (s & w2 & Hs). congruence. }
  unfold bind at 1.
  destruct (upload_sizes _ _ _ _ _ _ _ _ w1) as [[[ps us]|e] w2] eqn:Hloop.
  2:{ apply upload_sizes_effect in Hloop as (_ & _ & _ & _ & Hmsg).
      destruct (Hmsg e eq_refl) as (cause & ->).
      intros [= <- <-]. left. eauto. }
  unfold bind at 1.
  destruct (Promise_all ps w2) as [[[]|e] w3] eqn:Hall.
  - js_run. discriminate.
  - apply Promise_all_Throw in Hall.
    assert (Hnone : forall m, In (Throw m) (@nil (outcome unit)) ->
                              exists cause, m = "B2 upload failed: " +:+ cause)
      by (intros m []).
    destruct (upload_sizes_rejections _ _ _ _ _ _ _ _ _ _ _ _ Hnone Hloop e Hall)
      as (cause & ->).
    intros [= <- <-]. right. eauto.
Qed.

Lemma uploadImage_error_kinds_witness :
  exists cause,
    fst (uploadImage uploads_fail sample_buffer "cafe.jpg" "image/jpeg" sample_world)
    = Throw ("Image upload failed: " +:+ "B2 upload failed: " +:+ cause).
Proof.
  destruct (uploadImage uploads_fail sample_buffer "cafe.jpg" "image/jpeg" sample_world)
    as [[result|message] w'] eqn:Hrun; [vm_compute in Hrun; discriminate|].
  destruct (uploadImage_error_kinds uploads_fail sample_buffer "cafe.jpg" "image/jpeg"
              message sample_world w' Hrun)
    as [[Hflag _]|[(cause & Hval & _)|[(cause & ->)|(cause & ->)]]].
  - discriminate.
  - discriminate.
  - vm_compute in Hrun. discriminate.
  - exists cause. reflexivity.
Defined.

(** ** More on the validator *)

Lemma includes_In (l : list string) (x : string) :
  includes l x = true <-> In x l.
Proof.
  unfold includes. rewrite existsb_exists. split.
  - intros (y & Hin & Heq). apply String.eqb_eq in Heq. congruence.
  - intros Hin. exists x. split; [assumption|]. apply String.eqb_refl.
Qed.

(** X11: [validateImage] accepts a buffer exactly when it is not empty,
    holds at most 10 MiB (10485760 bytes, the limit included) and is
    declared as one of [image/jpeg], [image/png], [image/webp]. *)
Theorem validateImage_accepts_iff (imageBuffer : Buffer) (mimeType : string) :
  validateImage imageBuffer mimeType = Return tt <->
  (0 < Buffer_length imageBuffer <= 10485760)%Z
  /\ (mimeType = "image/jpeg" \/ mimeType = "image/png" \/ mimeType = "image/webp").
Proof.
  rewrite validateImage_by_length. unfold validate_by_length.
  assert (Hin : includes supportedFormats mimeType = true <->
                (mimeType = "image/jpeg" \/ mimeType = "image/png"
                 \/ mimeType = "image/webp")).
  { rewrite includes_In. unfold supportedFormats. simpl.
    intuition congruence. }
  unfold maxFileSize.
  destruct (Z.ltb_spec (10 * 1024 * 1024) (Buffer_length imageBuffer)) as [Hbig|Hsmall].
  { split; [discriminate|]. intros [[_ Hle] _]. lia. }
  destruct (includes supportedFormats mimeType) eqn:Hfmt; simpl.
  - destruct (Z.eqb_spec (Buffer_length imageBuffer) 0) as [Hzero|Hpos].
    + split; [discriminate|]. intros [[Hlt _] _]. lia.
    + split; [intros _|reflexivity].
      split; [|apply Hin; reflexivity].
      unfold Buffer_length in *. lia.
  - split; [discriminate|]. intros [_ Hm]. apply Hin in Hm. discriminate.
Qed.

(** X12: the three errors of [validateImage] in their order of
    precedence: the size error is thrown exactly for buffers over
    10 MiB, whatever the MIME type; the format error exactly for
    buffers within the limit whose MIME type is not supported; the
    empty-buffer error exactly for empty buffers of a supported type. *)
Theorem validateImage_error_precedence (imageBuffer : Buffer) (mimeType : string) :
  (validateImage imageBuffer mimeType
   = Throw "File size exceeds maximum limit of 10MB"
   <-> (10485760 < Buffer_length imageBuffer)%Z)
  /\ (validateImage imageBuffer mimeType
      = Throw "Unsupported image format. Supported formats: image/jpeg, image/png, image/webp"
      <-> (Buffer_length imageBuffer <= 10485760)%Z
          /\ ~ In mimeType supportedFormats)
  /\ (validateImage imageBuffer mimeType = Throw "Invalid image file: empty buffer"
      <-> imageBuffer = [] /\ In mimeType supportedFormats).
Proof.
  rewrite validateImage_by_length. unfold validate_by_length, maxFileSize.
  rewrite <- includes_In.
  assert (Hempty : Buffer_length imageBuffer = 0%Z <-> imageBuffer = []).
  { unfold Buffer_length. destruct imageBuffer; simpl; split;
      (reflexivity || discriminate || lia). }
  destruct (Z.ltb_spec (10 * 1024 * 1024) (Buffer_length imageBuffer)) as [Hbig|Hsmall].
  { split; [tauto|]. split; (split; [discriminate|]).
    - intros [Hle _]. lia.
    - intros [Hnil _]. apply Hempty in Hnil. lia. }
  destruct (includes supportedFormats mimeType) eqn:Hfmt; simpl.
  - destruct (Z.eqb_spec (Buffer_length imageBuffer) 0) as [Hzero|Hpos].
    + split; [split; [discriminate|lia]|].
      split; [split; [discriminate|intros [_ Hno]; congruence]|].
      split; [intros _|reflexivity]. split; [tauto|reflexivity].
    + split; [split; [discriminate|lia]|].
      split; [split; [discriminate|intros [_ Hno]; congruence]|].
      split; [discriminate|]. intros [Hnil _]. tauto.
  - split; [split; [discriminate|lia]|].
    split; [split; [intros _; split; [lia|congruence]|reflexivity]|].
    split; [discriminate|]. intros [_ Hyes]. discriminate.
Qed.

(** ** More on stored filenames *)

Lemma append_length (s t : string) :
  String.length (s +:+ t) = (String.length s + String.length t)%nat.
Proof. induction s as [|c s IH]; simpl; [reflexivity|]. rewrite IH. reflexivity. Qed.

Lemma append_cancel_r (s1 s2 t : string) : s1 +:+ t = s2 +:+ t -> s1 = s2.
Proof.
  revert s2. induction s1 as [|c s1 IH]; intros [|d s2] H.
  - reflexivity.
  - apply (f_equal String.length) in H. rewrite !append_length in H. simpl in H. lia.
  - apply (f_equal String.length) in H. rewrite !append_length in H. simpl in H. lia.
  - change (String c (s1 +:+ t) = String d (s2 +:+ t)) in H.
    injection H as -> H. f_equal. auto.
Qed.

(** X13: for every size, the name [deleteImage] looks for equals the
    name [uploadImage] stored exactly when the extension derived from
    the MIME type is [jpg]; this includes every MIME type for which
    mime-types knows no extension, since [getFileExtension] then falls
    back to [jpg]. *)
Theorem stored_names_agree_iff_jpg (ext : Externals) (fileId mime sizeName : string) :
  (upload_fileName fileId (getFileExtension ext mime) sizeName
   = delete_fileName fileId sizeName
   <-> getFileExtension ext mime = "jpg")
  /\ (mime_extension ext mime = None ->
      upload_fileName fileId (getFileExtension ext mime) sizeName
      = delete_fileName fileId sizeName).
Proof.
  assert (Hiff : forall extension,
             upload_fileName fileId extension sizeName = delete_fileName fileId sizeName
             <-> extension = "jpg").
  { intros extension. split.
    - intros Heq. destruct (string_dec extension "jpg") as [|Hne]; [assumption|].
      exfalso. exact (upload_delete_fileName_differ fileId extension sizeName Hne Heq).
    - intros ->. unfold upload_fileName, delete_fileName.
      destruct (String.eqb sizeName "original"); reflexivity. }
  split; [apply Hiff|].
  intros Hnone. apply Hiff. unfold getFileExtension. rewrite Hnone. reflexivity.
Qed.

(** X14: two different sizes of one asset never share a stored
    filename, so the uploads of one asset cannot overwrite each
    other. *)
Theorem upload_fileName_injective (fileId extension s1 s2 : string) :
  s1 <> s2 ->
  upload_fileName fileId extension s1 <> upload_fileName fileId extension s2.
Proof.
  intros Hne Heq. apply Hne. unfold upload_fileName in Heq.
  destruct (String.eqb_spec s1 "original") as [->|H1];
    destruct (String.eqb_spec s2 "original") as [->|H2].
  - reflexivity.
  - apply append_cancel_l in Heq.
    change (String "." extension = String "_" (s2 +:+ "." +:+ extension)) in Heq.
    discriminate.
  - apply append_cancel_l in Heq.
    change (String "_" (s1 +:+ "." +:+ extension) = String "." extension) in Heq.
    discriminate.
  - apply append_cancel_l in Heq. apply (append_cancel_l "_") in Heq.
    apply append_cancel_r in Heq. assumption.
Qed.

Lemma upload_fileName_injective_witness :
  upload_fileName "6f1e" "png" "thumbnail" <> upload_fileName "6f1e" "png" "original".
Proof. apply (upload_fileName_injective "6f1e" "png" "thumbnail" "original"). discriminate. Defined.

(** ** More on deletion *)

Section StoreHoldsTheFiles.

Context (ext : Externals) (version : string -> string).
Hypothesis listing_finds :
  forall h bucket name count,
    b2_listFileNames ext (h ++ [listFileNames bucket name count])%list
    = Return [{| f_fileId := version name; f_fileName := name |}].



End StoreHoldsTheFiles.



(** ** More on the health monitor *)

(** X16: on an initialized service [healthCheck] sends exactly one
    request, the [listBuckets] probe; it reports [healthy] when the
    probe succeeds and [unhealthy] with the probe's own message when it
    fails, with [initialized: true] in both reports. *)
Theorem healthCheck_probes_once (ext : Externals) (w : World) :
  isInitialized w = true -> b2 w <> None ->
  healthCheck ext w
  = (Return
       match b2_listBuckets ext (calls w ++ [listBuckets])%list with
       | Return _ =>
           healthy true (bucketName w) ["image/jpeg"; "image/png"; "image/webp"]
             "10MB" ["thumbnail"; "medium"; "large"; "original"]
       | Throw message => unhealthy message true
       end,
     add_calls w [listBuckets]).
Proof.
  intros Hflag Hb2. unfold healthCheck, try_catch, bind at 1.
  rewrite (ensure_initialized_ready ext w Hflag).
  unfold b2_call. js_run.
  destruct (b2 w) as [client|] eqn:Hclient; [|congruence]. simpl.
  destruct (b2_listBuckets ext _) as [[]|message]; simpl;
    unfold add_calls; rewrite Hclient, Hflag; reflexivity.
Qed.

Lemma healthCheck_probes_once_witness :
  healthCheck sample_ext sample_world
  = (Return (healthy true (Some "gems") ["image/jpeg"; "image/png"; "image/webp"]
               "10MB" ["thumbnail"; "medium"; "large"; "original"]),
     add_calls sample_world [listBuckets]).
Proof.
  apply (healthCheck_probes_once sample_ext sample_world); [reflexivity|discriminate].
Defined.

(** X17: on a service that is not initialized and lacks one of the
    required environment variables, [healthCheck] reports [unhealthy]
    with the initialization error naming such a variable and
    [initialized: false], without sending any request. *)
Theorem healthCheck_missing_variable (ext : Externals) (w : World) :
  isInitialized w = false ->
  (exists envVar, In envVar requiredEnvVars
                  /\ truthy_string (env w !! envVar) = false) ->
  exists envVar,
    In envVar requiredEnvVars /\ truthy_string (env w !! envVar) = false
    /\ healthCheck ext w
       = (Return (unhealthy ("Image service initialization failed: "
                             +:+ "Missing required environment variable: " +:+ envVar)
                    false), w).
Proof.
  intros Hflag Hmissing.
  destruct (check_env_Throw requiredEnvVars w Hmissing) as (v & Hin & Hv & Hrun).
  exists v. split; [assumption|]. split; [assumption|].
  unfold healthCheck, try_catch, bind at 1.
  rewrite ensure_initialized_initialize.
  unfold initialize. js_run. rewrite Hflag, Hrun, Hflag. reflexivity.
Qed.

Lemma healthCheck_missing_variable_witness :
  exists envVar,
    In envVar requiredEnvVars /\ truthy_string (partial_env !! envVar) = false
    /\ healthCheck sample_ext (constructed partial_env)
       = (Return (unhealthy ("Image service initialization failed: "
                             +:+ "Missing required environment variable: " +:+ envVar)
                    false), constructed partial_env).
Proof.
  apply (healthCheck_missing_variable sample_ext (constructed partial_env)).
  - reflexivity.
  - exists "B2_BUCKET_NAME". split; [simpl; tauto | reflexivity].
Defined.

(** ** The image controller *)

Lemma or_default_prefixed (c : ascii) (rest fallback : string) :
  or_default (Some (String c rest)) fallback = String c rest.
Proof. reflexivity. Qed.

Lemma or_default_initialization (cause fallback : string) :
  or_default (Some ("Image service initialization failed: " +:+ cause)) fallback
  = "Image service initialization failed: " +:+ cause.
Proof. reflexivity. Qed.

Lemma or_default_upload (cause fallback : string) :
  or_default (Some ("Image upload failed: " +:+ cause)) fallback
  = "Image upload failed: " +:+ cause.
Proof. reflexivity. Qed.

(** X18: the delete handler always answers, with one of three
    responses: 400 [INVALID_FILE_ID] for an identifier that is not a
    UUID, without touching the service; 200 when the service could be
    initialized, whatever the store did with the files; 500
    [DELETE_ERROR] with the initialization message otherwise.  The 404
    [DELETE_FAILED] response is never sent. *)
Theorem controller_deleteImage_never_404 (ext : Externals) (Joi_uuid : string -> bool)
    (fileId : string) (w : World) :
  exists response w',
    imageController.deleteImage ext Joi_uuid fileId w = (Return response, w')
    /\ status response <> 404%Z
    /\ ((Joi_uuid fileId = false /\ w' = w
         /\ response = error_response 400 "INVALID_FILE_ID" "Invalid file ID format")
        \/ (Joi_uuid fileId = true
            /\ (exists w0, ensure_initialized ext w = (Return tt, w0))
            /\ response = {| status := 200;
                             payload := succeeded "Image deleted successfully" |})
        \/ (Joi_uuid fileId = true
            /\ exists message,
                 ensure_initialized ext w = (Throw message, w')
                 /\ response = error_response 500 "DELETE_ERROR" message)).
Proof.
  unfold imageController.deleteImage, try_catch.
  destruct (Joi_uuid fileId) eqn:Huuid; cbv [negb].
  - unfold bind at 1.
    destruct (ensure_initialized ext w) as [[[]|message] w0] eqn:Hinit.
    + rewrite (deleteImage_run ext fileId w w0 Hinit). unfold ret.
      eexists _, _. split; [reflexivity|]. split; [discriminate|].
      right. left. eauto.
    + assert (Hrun : deleteImage ext fileId w = (Throw message, w0)).
      { unfold deleteImage, bind. rewrite Hinit. reflexivity. }
      rewrite Hrun. unfold ret.
      rewrite ensure_initialized_initialize in Hinit.
      destruct (initialize_effect ext w w0 _ Hinit) as (_ & _ & _ & _ & _ & _ & Hmsg).
      destruct (Hmsg message eq_refl) as (_ & cause & ->).
      cbv beta. rewrite or_default_initialization.
      eexists _, _. split; [reflexivity|]. split; [discriminate|].
      right. right. split; [reflexivity|].
      exists ("Image service initialization failed: " +:+ cause). auto.
  - unfold ret. eexists _, _. split; [reflexivity|]. split; [discriminate|].
    left. auto.
Qed.

(** X19: the upload handler always answers: 400 [NO_FILE] without
    touching the service when the request carries no file; 201 with the
    data of the service's result when [uploadImage] succeeds; and 500
    [UPLOAD_FAILED] carrying the message of the service's error word
    for word when it fails, so the stock text [Failed to upload image]
    is never sent. *)
Theorem controller_uploadImage_responses (ext : Externals) (file : option File)
    (w : World) :
  match file with
  | None =>
      imageController.uploadImage ext file w
      = (Return (error_response 400 "NO_FILE" "No image file provided"), w)
  | Some f =>
      match uploadImage ext (buffer f) (originalname f) (mimetype f) w with
      | (Return result, w') =>
          imageController.uploadImage ext file w
          = (Return {| status := 201;
                       payload := uploaded (data result) "Image uploaded successfully" |},
             w')
      | (Throw message, w') =>
          imageController.uploadImage ext file w
          = (Return (error_response 500 "UPLOAD_FAILED" message), w')
      end
  end.
Proof.
  destruct file as [f|]; [|reflexivity].
  unfold imageController.uploadImage, try_catch, bind.
  destruct (uploadImage ext (buffer f) (originalname f) (mimetype f) w)
    as [[result|message] w'] eqn:Hrun; [reflexivity|].
  apply uploadImage_effect in Hrun as (_ & _ & _ & _ & Hmsg).
  destruct (Hmsg message eq_refl) as [(cause & ->)|(_ & cause & ->)]; reflexivity.
Qed.

Lemma healthCheck_Return (ext : Externals) (w : World) :
  exists report w', healthCheck ext w = (Return report, w').
Proof.
  unfold healthCheck. js_run.
  destruct (ensure_initialized ext w) as [[[]|e] w0]; [|eauto].
  destruct (b2_call "listBuckets" listBuckets (b2_listBuckets ext) w0)
    as [[[]|e] w1]; eauto.
Qed.

(** X20: the health handler always wraps the service's report: status
    200 and [success: true] exactly when the report is [healthy],
    status 503 and [success: false] when it is [unhealthy]; the
    [HEALTH_CHECK_FAILED] response is never sent. *)
Theorem controller_healthCheck_wraps_report (ext : Externals) (w : World) :
  exists report w',
    healthCheck ext w = (Return report, w')
    /\ imageController.healthCheck ext w
       = (Return
            match report with
            | healthy _ _ _ _ _ =>
                {| status := 200;
                   payload := health_report true report "Image service is healthy" |}
            | unhealthy _ _ =>
                {| status := 503;
                   payload := health_report false report "Image service is unhealthy" |}
            end, w').
Proof.
  destruct (healthCheck_Return ext w) as (report & w' & Hrun).
  exists report, w'. split; [assumption|].
  unfold imageController.healthCheck, try_catch, bind. rewrite Hrun.
  destruct report; reflexivity.
Qed.

(** X21: on an initialized service the proxy handler, given a
    non-empty filename, sends one download request and answers 404
    [IMAGE_NOT_FOUND] when the download fails, whatever the failure;
    when it succeeds it answers 200 with the bytes, the store's content
    type (or [image/jpeg] when the header is missing or empty), the
    store's content length, a one-year cache directive and the store's
    ETag, or the filename when the store sent none. *)
Theorem controller_proxyImage_responses (ext : Externals) (filename : string)
    (w : World) :
  isInitialized w = true -> b2 w <> None -> filename <> "" ->
  let download := downloadFileByName (bucketName w) filename in
  imageController.proxyImage ext filename w
  = (Return
       match b2_downloadFileByName ext (calls w ++ [download])%list with
       | Throw _ => error_response 404 "IMAGE_NOT_FOUND" "Image not found"
       | Return downloadResponse =>
           let headers := response_headers downloadResponse in
           {| status := 200;
              payload :=
                image
                  [ ("Content-Type",
                     Some (or_default (headers !! "content-type") "image/jpeg"));
                    ("Content-Length", headers !! "content-length");
                    ("Cache-Control", Some "public, max-age=31536000");
                    ("ETag", Some (or_default (headers !! "etag") filename)) ]
                  (response_data downloadResponse) |}
       end,
     add_calls w [download]).
Proof.
  intros Hflag Hb2 Hname download.
  unfold imageController.proxyImage, try_catch.
  destruct filename as [|c rest]; [congruence|]. cbv [truthy_string negb].
  unfold bind at 1, getImage, bind at 1.
  rewrite (ensure_initialized_ready ext w Hflag).
  unfold b2_call. js_run.
  destruct (b2 w) as [client|] eqn:Hclient; [|congruence].
  fold download. cbv iota beta.
  destruct (b2_downloadFileByName ext _) as [downloadResponse|message]; cbv iota beta;
    unfold add_calls; rewrite Hclient; [|reflexivity].
  cbn [contentType body contentLength etag].
  destruct (response_headers downloadResponse !! "content-type") as [[|? ?]|];
    reflexivity.
Qed.

Lemma controller_proxyImage_responses_witness :
  imageController.proxyImage (download_answers (Return bare_download))
    "6f1e_medium.png" sample_world
  = (Return {| status := 200;
               payload :=
                 image [ ("Content-Type", Some "image/jpeg");
                         ("Content-Length", None);
                         ("Cache-Control", Some "public, max-age=31536000");
                         ("ETag", Some "6f1e_medium.png") ]
                   sample_buffer |},
     add_calls sample_world [downloadFileByName (Some "gems") "6f1e_medium.png"]).
Proof.
  apply (controller_proxyImage_responses (download_answers (Return bare_download))
           "6f1e_medium.png" sample_world); [reflexivity|discriminate|discriminate].
Defined.

Lemma validateImage_message_not_empty (imageBuffer : Buffer)
    (mimeType message fallback : string) :
  validateImage imageBuffer mimeType = Throw message ->
  or_default (Some message) fallback = message.
Proof.
  rewrite validateImage_by_length. unfold validate_by_length.
  destruct (_ <? _)%Z; [intros [= <-]; reflexivity|].
  destruct (negb _); [intros [= <-]; reflexivity|].
  destruct (_ =? _)%Z; [intros [= <-]; reflexivity|discriminate].
Qed.

(** X22: the metadata handler, given a file, never touches the
    service state or the store.  For a file [validateImage] rejects it
    answers 500 [METADATA_ERROR] with the validator's message word for
    word, and sharp is not consulted; for a valid file it answers 200
    with sharp's metadata and the buffer's length as [size], or 500
    with [Failed to get image metadata: ] and sharp's message. *)
Theorem controller_getImageMetadata_responses
    (sharp_metadata : Buffer -> outcome SharpMetadata) (f : File) (w : World) :
  imageController.getImageMetadata sharp_metadata (Some f) w
  = (Return
       match validateImage (buffer f) (mimetype f) with
       | Throw message => error_response 500 "METADATA_ERROR" message
       | Return _ =>
           match sharp_metadata (buffer f) with
           | Throw message =>
               error_response 500 "METADATA_ERROR"
                 ("Failed to get image metadata: " +:+ message)
           | Return metadata =>
               {| status := 200;
                  payload :=
                    described
                      {| meta_width := metadata_width metadata;
                         meta_height := metadata_height metadata;
                         meta_format := metadata_format metadata;
                         meta_size := Z.of_nat (length (buffer f));
                         meta_hasAlpha := metadata_hasAlpha metadata;
                         meta_channels := metadata_channels metadata |}
                      (originalname f) (mimetype f)
                      "Image metadata retrieved successfully" |}
           end
       end, w).
Proof.
  unfold imageController.getImageMetadata, getImageMetadata. js_run.
  destruct (validateImage (buffer f) (mimetype f)) as [[]|message] eqn:Hval.
  - destruct (sharp_metadata (buffer f)) as [metadata|message]; reflexivity.
  - rewrite (validateImage_message_not_empty _ _ _ _ Hval). reflexivity.
Qed.

(** ** The image routes *)

(** X23: the upload filter of the routes and the validator of the
    service agree: a file whose MIME type passes [fileFilter], that is
    not empty and holds at most [limits.fileSize] bytes, is accepted by
    [validateImage]; and [fileFilter] passes exactly the MIME types of
    [supportedFormats]. *)
Theorem fileFilter_agrees_with_validateImage (f : File) :
  (imagesRoutes.fileFilter (mimetype f) = Return true
   <-> In (mimetype f) supportedFormats)
  /\ (imagesRoutes.fileFilter (mimetype f) = Return true ->
      buffer f <> [] ->
      (Buffer_length (buffer f) <= imagesRoutes.fileSize)%Z ->
      validateImage (buffer f) (mimetype f) = Return tt).
Proof.
  assert (Hiff : imagesRoutes.fileFilter (mimetype f) = Return true
                 <-> In (mimetype f) supportedFormats).
  { rewrite <- includes_In. unfold imagesRoutes.fileFilter.
    change ["image/jpeg"; "image/png"; "image/webp"] with supportedFormats.
    destruct (includes supportedFormats (mimetype f)); split;
      (reflexivity || discriminate). }
  split; [exact Hiff|].
  intros Hfilter Hnonempty Hsize.
  apply Hiff, includes_In in Hfilter.
  rewrite validateImage_by_length. unfold validate_by_length.
  unfold imagesRoutes.fileSize in Hsize. unfold maxFileSize.
  destruct (Z.ltb_spec (10 * 1024 * 1024) (Buffer_length (buffer f))); [lia|].
  rewrite Hfilter. simpl.
  destruct (Z.eqb_spec (Buffer_length (buffer f)) 0) as [Hzero|]; [|reflexivity].
  unfold Buffer_length in Hzero. destruct (buffer f); [congruence|simpl in Hzero; lia].
Qed.

Lemma fileFilter_agrees_with_validateImage_witness :
  validateImage (buffer sample_file) (mimetype sample_file) = Return tt.
Proof.
  apply (fileFilter_agrees_with_validateImage sample_file);
    [reflexivity | discriminate | vm_compute; discriminate].
Defined.

(** X24: [handleMulterError] answers every error it handles with
    status 400; it answers the error with which [fileFilter] rejects a
    MIME type as [INVALID_FILE_TYPE] with the filter's message, and it
    passes on, unanswered, exactly the errors that are not multer's and
    whose message does not contain [Invalid file type]. *)
Theorem handleMulterError_answers (error : imagesRoutes.UploadError) :
  (forall response,
      imagesRoutes.handleMulterError error = Some response -> status response = 400%Z)
  /\ (forall mime message,
         imagesRoutes.fileFilter mime = Throw message ->
         imagesRoutes.handleMulterError (imagesRoutes.OtherError message)
         = Some (error_response 400 "INVALID_FILE_TYPE" message))
  /\ (imagesRoutes.handleMulterError error = None
      <-> exists message,
            error = imagesRoutes.OtherError message
            /\ imagesRoutes.String_includes message "Invalid file type" = false).
Proof.
  split; [|split].
  - intros response. destruct error as [code message|message]; simpl.
    + destruct (String.eqb code "LIMIT_FILE_SIZE"); [intros [= <-]; reflexivity|].
      destruct (String.eqb code "LIMIT_FILE_COUNT"); intros [= <-]; reflexivity.
    + destruct (imagesRoutes.String_includes message _);
        [intros [= <-]; reflexivity|discriminate].
  - intros mime message. unfold imagesRoutes.fileFilter.
    destruct (includes _ mime); [discriminate|]. intros [= <-]. reflexivity.
  - destruct error as [code message|message]; simpl.
    + split.
      * destruct (String.eqb code "LIMIT_FILE_SIZE"); [discriminate|].
        destruct (String.eqb code "LIMIT_FILE_COUNT"); discriminate.
      * intros (m & Hm & _). discriminate.
    + destruct (imagesRoutes.String_includes message _) eqn:Hinc.
      * split; [discriminate|]. intros (m & [= <-] & Hm). congruence.
      * split; [eauto|reflexivity].
Qed.

(** A MIME type unknown to mime-types gets the [jpg] fallback, and
    deletion then looks for the names that were stored. *)
Lemma stored_names_agree_iff_jpg_witness :
  upload_fileName "6f1e" (getFileExtension sample_ext "image/x-unknown") "large"
  = delete_fileName "6f1e" "large".
Proof.
  apply (stored_names_agree_iff_jpg sample_ext "6f1e" "image/x-unknown" "large").
  reflexivity.
Defined.
